(** * Amadeus Activities & Weather Explorer: the weather classifier and the
      filter / sort / paginate pipeline of [amadeus_meteo_v3.py]

    Python [float]s are IEEE binary64 values and are modelled by Rocq's
    primitive floats, whose comparisons and arithmetic are specified by
    [FloatAxioms] against [SpecFloat].  Python exceptions are modelled by
    [option]: [None] stands for a raised exception. *)

From Stdlib Require Import ZArith List Bool Lia String Ascii Permutation Sorted.
From Stdlib Require Import Floats Uint63.
Import ListNotations.
Local Open Scope Z_scope.

(** ** Python numbers *)

Module Py.

(** [float(n)] for a small natural number such as [len(rows)]. *)
Definition float_of_nat (n : nat) : float :=
  PrimFloat.of_uint63 (Uint63.of_Z (Z.of_nat n)).

(** [x / y] on floats: Python raises [ZeroDivisionError] on a zero divisor
    (either sign) and otherwise divides as IEEE does. *)
Definition truediv (x y : float) : option float :=
  if PrimFloat.eqb y 0%float then None else Some (PrimFloat.div x y).

(** [sum(bs)] of a sequence of booleans: [True] counts 1, [False] 0; the
    running total starts from the integer 0. *)
Fixpoint sum_bool (acc : Z) (bs : list bool) : Z :=
  match bs with
  | [] => acc
  | b :: bs' => sum_bool (acc + (if b then 1 else 0)) bs'
  end.

(** [sum(xs)] of a sequence of floats, accumulated from the left, the
    start value 0 being converted to 0.0 by the first addition.  (CPython
    3.12 and later compensate the rounding error of this loop; that changes
    at most the low bits of the total and is not modelled.) *)
Fixpoint sum_float (acc : float) (xs : list float) : float :=
  match xs with
  | [] => acc
  | x :: xs' => sum_float (PrimFloat.add acc x) xs'
  end.

(** [math.ceil(x)] on a float: the least integer not below [x]; infinities
    and NaN raise. *)
Definition ceil (x : float) : option Z :=
  match Prim2SF x with
  | S754_zero _ => Some 0
  | S754_finite s m e =>
      let v := if s then Z.neg m else Z.pos m in
      if 0 <=? e then Some (v * 2 ^ e) else Some (- ((- v) / 2 ^ (- e)))
  | S754_infinity _ | S754_nan => None
  end.

(** [math.ceil(n / d)] for two integers below 2^53, as the source computes
    it: through the double nearest to the quotient. *)
Definition ceil_of_quotient (n d : Z) : option Z :=
  match truediv (PrimFloat.of_uint63 (Uint63.of_Z n))
                (PrimFloat.of_uint63 (Uint63.of_Z d)) with
  | Some q => ceil q
  | None => None
  end.

End Py.

(** ** The order of binary64 values

    Every value but NaN has a rank in the lexicographic order on triples
    (class, exponent, mantissa); [<] and [==] on floats are the strict order
    and the equality of ranks.  Both zeros share a rank. *)
Definition not_nan (x : float) : bool := PrimFloat.eqb x x.

Definition SFrank (x : spec_float) : Z * Z * Z :=
  match x with
  | S754_nan => (0, 0, 0)
  | S754_zero _ => (0, 0, 0)
  | S754_infinity true => (-2, 0, 0)
  | S754_infinity false => (2, 0, 0)
  | S754_finite true m e => (-1, - e, Z.neg m)
  | S754_finite false m e => (1, e, Z.pos m)
  end.

Definition rank (x : float) : Z * Z * Z := SFrank (Prim2SF x).

Definition lex_lt (p q : Z * Z * Z) : Prop :=
  fst (fst p) < fst (fst q) \/
  (fst (fst p) = fst (fst q) /\
   (snd (fst p) < snd (fst q) \/ (snd (fst p) = snd (fst q) /\ snd p < snd q))).

Definition lex_eq (p q : Z * Z * Z) : Prop :=
  fst (fst p) = fst (fst q) /\ snd (fst p) = snd (fst q) /\ snd p = snd q.

(** ** 3. Open-Meteo rows and the weather classifier *)

(** One row of [last_three_years_weather]: the keys "Year", "Max °C",
    "Min °C" and "Precip mm". *)
Record weather_row := {
  Year : Z;
  MaxC : float;
  MinC : float;
  PrecipMm : float
}.

(** [classify_weather(rows)]: [(rain_flag, avg_temp)]. *)
Definition classify_weather (rows : list weather_row) : option (bool * float) :=
  let rain_flag :=
    2 <=? Py.sum_bool 0 (map (fun r => PrimFloat.ltb 0%float (PrecipMm r)) rows) in
  match rows with
  | [] => Some (rain_flag, PrimFloat.nan)
  | _ :: _ =>
      match Py.truediv
              (Py.sum_float 0%float
                 (map (fun r => PrimFloat.div (PrimFloat.add (MaxC r) (MinC r)) 2%float)
                      rows))
              (Py.float_of_nat (List.length rows)) with
      | Some avg_temp => Some (rain_flag, avg_temp)
      | None => None
      end
  end.

Definition rain_set : list string :=
  ["Museums"; "Restaurants"; "Historical"; "Sightseeing"]%string.
Definition cold_set : list string :=
  ["Museums"; "Historical"; "Tours"; "Sightseeing"]%string.
Definition warm_set : list string :=
  ["Wine"; "Historical"]%string.

(** [preset_categories(rain, avg_t)]. *)
Definition preset_categories (rain : bool) (avg_t : float) : list string :=
  if rain then rain_set
  else if PrimFloat.ltb avg_t 15%float then cold_set
  else warm_set.

(** The lists above read as sets of category names. *)
Definition same_set (a b : list string) : Prop := forall x, In x a <-> In x b.
Definition disjoint (a b : list string) : Prop := forall x, In x a -> ~ In x b.

Definition preset_sets : list (list string) := [rain_set; cold_set; warm_set].

(** "No partial overlap between sets": any two are equal or disjoint. *)
Definition no_partial_overlap (sets : list (list string)) : Prop :=
  forall a b, In a sets -> In b sets -> same_set a b \/ disjoint a b.

(** Following the spec's words: the number of samples with [precipMm > 0],
    the midpoint temperature of a sample, and the arithmetic mean of a
    sequence of temperatures (their sum, taken in order, over their
    number). *)
Definition wet_samples (rows : list weather_row) : nat :=
  List.length (filter (fun r => PrimFloat.ltb 0%float (PrecipMm r)) rows).

Definition midpoint (r : weather_row) : float := ((MaxC r + MinC r) / 2)%float.

Definition arithmetic_mean (xs : list float) : float :=
  (fold_left PrimFloat.add xs 0 / Py.float_of_nat (List.length xs))%float.

(** The weather of the spec's scenario: dry in 2024, rain in 2023 and 2022. *)
Definition scenario_rows : list weather_row :=
  [ {| Year := 2024; MaxC := 21; MinC := 11; PrecipMm := 0 |};
    {| Year := 2023; MaxC := 18; MinC := 10; PrecipMm := 2.5 |};
    {| Year := 2022; MaxC := 16; MinC := 9; PrecipMm := 0.5 |} ]%float.

(** ** 8. Categories and their keywords *)

Definition CATEGORY_LIST : list string :=
  ["Tours"; "Museums"; "Restaurants"; "Wine"; "Historical"; "Sightseeing"]%string.

(** The dict [KEYWORDS], in the order it is written. *)
Definition KEYWORDS : list (string * list string) :=
  [ ("Tours",       ["tour"]);
    ("Museums",     ["museum"]);
    ("Restaurants", ["restaurant"; "food"]);
    ("Wine",        ["wine"]);
    ("Historical",  ["castle"; "palace"; "cathedral"; "ruins"]);
    ("Sightseeing", ["sightseeing"; "view"; "panorama"]) ]%string.

(** [d[k]]: [None] is a [KeyError]. *)
Fixpoint dict_get {V} (d : list (string * V)) (k : string) : option V :=
  match d with
  | [] => None
  | (k', v) :: d' => if String.eqb k k' then Some v else dict_get d' k
  end.

(** [[kw for cat in active_cats for kw in KEYWORDS[cat]] if active_cats else []] *)
Fixpoint kw_list (active_cats : list string) : option (list string) :=
  match active_cats with
  | [] => Some []
  | cat :: cats =>
      match dict_get KEYWORDS cat, kw_list cats with
      | Some kws, Some rest => Some (kws ++ rest)
      | _, _ => None
      end
  end.

(** ** Activity records

    An activity is a JSON object; of its keys the pipeline reads "name",
    "shortDescription", "rating" and "price"/"amount" (the others, "id",
    "pictures", "bookingLink", "minimumDuration", are only rendered).  A
    key may be absent ([None] at the outer [option]).  The provider sends
    ratings and amounts as JSON numbers, strings or null.  Other shapes (a
    list or an object as rating or amount, null as price), on which the
    script raises, are outside this model. *)
Inductive value :=
| VNone
| VNum (f : float)
| VStr (s : string).

Record price_info := {
  amount : option value;
  currencyCode : option string
}.

Record activity := {
  name : option string;
  shortDescription : option string;
  rating : option value;
  price : option price_info
}.

(** [bool(v)]: None, 0.0, -0.0 and the empty string are falsy (NaN is not). *)
Definition truthy (v : value) : bool :=
  match v with
  | VNone => false
  | VNum f => negb (PrimFloat.eqb f 0%float)
  | VStr s => negb (String.eqb s "")
  end.

(** ** 11. Category filter *)

(** [str.lower()] on ASCII text. *)
Definition lower_char (c : ascii) : ascii :=
  let n := N_of_ascii c in
  if ((65 <=? n) && (n <=? 90))%N then ascii_of_N (n + 32) else c.

Fixpoint lower (s : string) : string :=
  match s with
  | EmptyString => EmptyString
  | String c s' => String (lower_char c) (lower s')
  end.

(** [kw in s] on strings. *)
Fixpoint contains (kw s : string) : bool :=
  String.prefix kw s ||
  match s with
  | EmptyString => false
  | String _ s' => contains kw s'
  end.

Definition get_default {A} (o : option A) (d : A) : A :=
  match o with Some x => x | None => d end.

(** [(a.get("name", "") + " " + a.get("shortDescription", "")).lower()] *)
Definition search_text (a : activity) : string :=
  lower (get_default (name a) "" ++ " " ++ get_default (shortDescription a) "")%string.

Definition is_empty {A} (l : list A) : bool :=
  match l with [] => true | _ => false end.

(** [not kw_list or any(kw in text for kw in kw_list)] *)
Definition passes (kws : list string) (a : activity) : bool :=
  is_empty kws || existsb (fun kw => contains kw (search_text a)) kws.

Definition acts_filtered (kws : list string) (acts_raw : list activity) : list activity :=
  filter (passes kws) acts_raw.

(** Following the spec's words: [kw] occurs in [s] as a substring; an
    activity passes when there is no keyword at all or a keyword occurs in
    its lower-cased name, a space and its short description; and a list is
    filtered by keeping, in order, exactly the elements that pass. *)
Definition substring_of (kw s : string) : Prop :=
  exists pre post, s = (pre ++ kw ++ post)%string.

Definition passes_spec (kws : list string) (a : activity) : Prop :=
  kws = [] \/
  exists kw, In kw kws /\
    substring_of kw
      (lower (get_default (name a) "" ++ " " ++ get_default (shortDescription a) "")%string).

Inductive selects {A} (P : A -> Prop) : list A -> list A -> Prop :=
| selects_nil : selects P [] []
| selects_keep a l l' : P a -> selects P l l' -> selects P (a :: l) (a :: l')
| selects_drop a l l' : ~ P a -> selects P l l' -> selects P (a :: l) l'.

(** ** 11. Sorting *)

(** The five options of the "Sort" select box. *)
Inductive sort_order := SortNone | RatingDown | RatingUp | PriceDown | PriceUp.

(** ["↓" in sort_order] and ["Rating" in sort_order]. *)
Definition reverse_of (o : sort_order) : bool :=
  match o with RatingDown | PriceDown => true | _ => false end.
Definition by_rating (o : sort_order) : bool :=
  match o with RatingDown | RatingUp => true | _ => false end.

(** [list.sort(key=..., reverse=...)].  All keys are computed first (the
    call raises if one does); the decorated list is then sorted stably by
    [<] on the keys alone.  For [reverse=True] CPython reverses the list,
    sorts it ascending and reverses the result, which keeps equal keys in
    their input order.  The stable sort is written as insertion from the
    left: on keys that [<] orders totally (no NaN) every stable sort
    returns this same list ([list_sort_unique]). *)
Fixpoint insert_by {A} (k : float) (a : A) (l : list (float * A)) : list (float * A) :=
  match l with
  | [] => [(k, a)]
  | (k', a') :: l' =>
      if PrimFloat.ltb k k' then (k, a) :: l else (k', a') :: insert_by k a l'
  end.

Definition stable_sort {A} (l : list (float * A)) : list (float * A) :=
  fold_left (fun acc p => insert_by (fst p) (snd p) acc) l [].

Fixpoint keys_of {A} (key : A -> option float) (l : list A) : option (list (float * A)) :=
  match l with
  | [] => Some []
  | a :: l' =>
      match key a, keys_of key l' with
      | Some k, Some d => Some ((k, a) :: d)
      | _, _ => None
      end
  end.

Definition list_sort {A} (key : A -> option float) (reverse : bool) (l : list A)
  : option (list A) :=
  match keys_of key l with
  | None => None
  | Some d =>
      let d1 := if reverse then rev d else d in
      let s := stable_sort d1 in
      Some (map snd (if reverse then rev s else s))
  end.

(** What the proofs say of a decorated list: no key is below an earlier
    one; every key is a number; an entry has a key equal to [c]. *)
Definition ascending {A} (p q : float * A) : Prop :=
  PrimFloat.ltb (fst q) (fst p) = false.

Definition decorated_order {A} (reverse : bool) (p q : float * A) : Prop :=
  if reverse then ascending q p else ascending p q.

Definition numbers {A} (l : list (float * A)) : Prop :=
  Forall (fun p => not_nan (fst p) = true) l.

Definition has_key {A} (c : float) (p : float * A) : bool :=
  PrimFloat.eqb (fst p) c.

(** An entry of the decorated list carries the key of its element, and
    that key is a number. *)
Definition tagged {A} (key : A -> option float) (p : float * A) : Prop :=
  key (snd p) = Some (fst p) /\ not_nan (fst p) = true.

Section Pipeline.

(** [float(s)] on a string is Python's decimal parser; [None] is its
    [ValueError]. *)
Variable float_of_str : string -> option float.

(** [float(v)]; [float(None)] is a [TypeError]. *)
Definition py_float (v : value) : option float :=
  match v with
  | VNone => None
  | VNum f => Some f
  | VStr s => float_of_str s
  end.

(** [float(a.get("rating") or -1)] *)
Definition rating_key (a : activity) : option float :=
  py_float (match rating a with
            | Some v => if truthy v then v else VNum (-1)%float
            | None => VNum (-1)%float
            end).

(** [float(a.get("price", {}).get("amount", float("inf")))] *)
Definition price_key (a : activity) : option float :=
  py_float (match price a with
            | Some p => get_default (amount p) (VNum PrimFloat.infinity)
            | None => VNum PrimFloat.infinity
            end).

Definition sort_key (o : sort_order) : activity -> option float :=
  if by_rating o then rating_key else price_key.

Definition sort_activities (o : sort_order) (acts : list activity)
  : option (list activity) :=
  match o with
  | SortNone => Some acts
  | _ => list_sort (sort_key o) (reverse_of o) acts
  end.

(** Following the spec's words: the key an activity is sorted by (NaN
    where the key cannot be computed), whether that key is a number that
    can be ordered, and what "ascending" and "descending" ask of two
    activities that follow one another at any distance. *)
Definition key_value (key : activity -> option float) (a : activity) : float :=
  get_default (key a) PrimFloat.nan.

Definition usable_key (key : activity -> option float) (a : activity) : bool :=
  match key a with
  | Some k => not_nan k
  | None => false
  end.

Definition in_order (key : activity -> option float) (reverse : bool)
  (a b : activity) : Prop :=
  if reverse
  then PrimFloat.leb (key_value key b) (key_value key a) = true
  else PrimFloat.leb (key_value key a) (key_value key b) = true.

Definition same_key (key : activity -> option float) (c : float) (a : activity) : bool :=
  PrimFloat.eqb (key_value key a) c.

(** An activity without a usable rating: the key is absent, or its value
    is falsy (null, 0, the empty string). *)
Definition unrated (a : activity) : bool :=
  match rating a with
  | None => true
  | Some v => negb (truthy v)
  end.

(** The price amount is missing: there is no "price" key, or the price
    object has no "amount" key. *)
Definition no_amount (a : activity) : bool :=
  match price a with
  | None => true
  | Some p => match amount p with None => true | Some _ => false end
  end.

(** A few activities to sort: one without rating, two rated 4.5, one rated
    0, with prices 12, none, 30 and 12. *)
Definition act (n : string) (r : option value) (p : option value) : activity :=
  {| name := Some n; shortDescription := None; rating := r;
     price := option_map (fun v => {| amount := Some v; currencyCode := None |}) p |}.

Definition sample_acts : list activity :=
  [ act "Old Town Walk" None (Some (VNum 12%float));
    act "Castle Tour" (Some (VNum 4.5%float)) None;
    act "Harbour View" (Some (VNum 0%float)) (Some (VNum 30%float));
    act "Wine Cellar" (Some (VNum 4.5%float)) (Some (VNum 12%float)) ]%string.

(** A [float(s)] that knows no string at all. *)
Definition no_strings (s : string) : option float := None.

(** An activity without rating, one rated 5 and one rated 0. *)
Definition unrated_tour : activity := act "Unrated" None None.
Definition five_star_tour : activity := act "Five" (Some (VNum 5%float)) None.
Definition zero_star_tour : activity := act "Zero" (Some (VNum 0%float)) None.

(** The rating sort as the spec words it: the key of a rated activity is
    its rating, and in descending order whatever follows an activity
    without rating has no rating either. *)
Definition rating_sort_as_claimed : Prop :=
  forall acts sorted : list activity,
    forallb (usable_key rating_key) acts = true ->
    sort_activities RatingDown acts = Some sorted ->
    (forall a f, In a acts -> rating a = Some (VNum f) -> rating_key a = Some f) /\
    (forall l1 a l2, sorted = l1 ++ a :: l2 -> rating a = None ->
                     Forall (fun b => rating b = None) l2).

(** ** 11. Pagination *)

(** [math.ceil(n / d)] for a list length [n] and a page size [d].  The
    quotient is a double in the source; for lengths below 2^49 and the page
    sizes offered its rounding cannot reach the next integer, so the
    ceiling is the exact one, written here on integers ([Z.div] rounds
    down).  [ceil_div_agrees] compares the two on a range of lengths. *)
Definition ceil_div (n d : Z) : Z := - ((- n) / d).

Definition ceil_div_agrees (upto : nat) : bool :=
  forallb (fun d =>
             forallb (fun n => match Py.ceil_of_quotient (Z.of_nat n) d with
                               | Some c => c =? ceil_div (Z.of_nat n) d
                               | None => false
                               end)
                     (seq 0 upto))
          [5; 10; 20].

(** [l[i:j]]: negative indices count from the end, and both ends are
    clamped to the list. *)
Definition slice {A} (l : list A) (i j : Z) : list A :=
  let n := Z.of_nat (List.length l) in
  let clamp k := if k <? 0 then Z.max 0 (k + n) else Z.min k n in
  firstn (Z.to_nat (clamp j - clamp i)) (skipn (Z.to_nat (clamp i)) l).

Definition total_pages {A} (acts : list A) (page_size : Z) : Z :=
  Z.max 1 (ceil_div (Z.of_nat (List.length acts)) page_size).

(** Lines 376-380: [(page_slice, page, pages)] for the page stored in the
    session; [None] is the [ZeroDivisionError] of a zero page size. *)
Definition paginate {A} (acts : list A) (page_size requested : Z)
  : option (list A * Z * Z) :=
  if page_size =? 0 then None
  else
    let pages := total_pages acts page_size in
    let page := Z.max 1 (Z.min requested pages) in
    Some (slice acts ((page - 1) * page_size) (page * page_size), page, pages).

(** The items shown for a requested page, and the pages 1 .. [pages] one
    after the other. *)
Definition page_items {A} (acts : list A) (page_size p : Z) : list A :=
  match paginate acts page_size p with
  | Some (items, _, _) => items
  | None => []
  end.

Definition all_pages {A} (acts : list A) (page_size : Z) : list (list A) :=
  map (fun p => page_items acts page_size (Z.of_nat p))
      (seq 1 (Z.to_nat (total_pages acts page_size))).

(** ** 4-11. The script as a function of the session state *)

(** The keys of [st.session_state] the script reads and writes. *)
Record session := {
  page : Z;
  have_results : bool;
  active_cats : list string;
  use_preset : bool;
  cat_filter : option (list string);
  cat_filter_new : option (list string)
}.

(** Section 4: the defaults of a new session. *)
Definition new_session : session :=
  {| page := 1; have_results := false; active_cats := []; use_preset := false;
     cat_filter := None; cat_filter_new := None |}.

Definition set_page (p : Z) (s : session) : session :=
  {| page := p; have_results := have_results s; active_cats := active_cats s;
     use_preset := use_preset s; cat_filter := cat_filter s;
     cat_filter_new := cat_filter_new s |}.
Definition set_have_results (b : bool) (s : session) : session :=
  {| page := page s; have_results := b; active_cats := active_cats s;
     use_preset := use_preset s; cat_filter := cat_filter s;
     cat_filter_new := cat_filter_new s |}.
Definition set_use_preset (b : bool) (s : session) : session :=
  {| page := page s; have_results := have_results s; active_cats := active_cats s;
     use_preset := b; cat_filter := cat_filter s;
     cat_filter_new := cat_filter_new s |}.
Definition set_cats (c : list string) (s : session) : session :=
  {| page := page s; have_results := have_results s; active_cats := c;
     use_preset := use_preset s; cat_filter := Some c;
     cat_filter_new := cat_filter_new s |}.
Definition set_cat_filter_new (c : option (list string)) (s : session) : session :=
  {| page := page s; have_results := have_results s; active_cats := active_cats s;
     use_preset := use_preset s; cat_filter := cat_filter s;
     cat_filter_new := c |}.

(** What the browser and the two services hand to one run of the script:
    the widget values, which button was pressed, the answer of the
    activities endpoint ([None]: the request raised) and the weather rows. *)
Record run_input := {
  city_selected : bool;
  page_size : Z;
  sort_choice : sort_order;
  preset_button : bool;
  find_button : bool;
  api_result : option (list activity);
  weather_rows : list weather_row
}.

(** How a run ends: [st.stop()], [st.rerun()], an uncaught exception, or
    the rendered page. *)
Inductive outcome :=
| Stopped
| Rerun
| Crashed
| Rendered (page_slice : list activity) (pages : Z).

Definition list_eqb (l1 l2 : list string) : bool :=
  if list_eq_dec string_dec l1 l2 then true else false.

(** Section 5: a pending programmatic category update. *)
Definition apply_pending (s : session) : session :=
  match cat_filter_new s with
  | Some c => set_cat_filter_new None (set_cats c s)
  | None => s
  end.

(** Section 8: the multiselect (created with the stored value, or with
    [active_cats] as default on the first run), the tracking list, the
    cancellation of a pending preset and the preset button. *)
Definition category_widgets (w : run_input) (s : session) : session :=
  let selected := get_default (cat_filter s) (active_cats s) in
  let s := set_cats selected s in
  let s := if use_preset s
              && negb (list_eqb selected (preset_categories false 0%float))
           then set_use_preset false s else s in
  if preset_button w then set_use_preset true s else s.

(** Section 9: the "Find Activities" button. *)
Definition search_trigger (w : run_input) (s : session) : session :=
  if find_button w then set_page 1 (set_have_results true s) else s.

(** Section 10: the verdict shown under the weather table. *)
Definition weather_verdict (rows : list weather_row) : option (bool * float) :=
  match rows with
  | [] => Some (false, PrimFloat.nan)
  | _ => classify_weather rows
  end.

(** Section 11: filter, sort and paginate; the clamped page is stored. *)
Definition render (w : run_input) (acts_raw : list activity) (s : session)
  : session * outcome :=
  match kw_list (active_cats s) with
  | None => (s, Crashed)
  | Some kws =>
      match sort_activities (sort_choice w) (acts_filtered kws acts_raw) with
      | None => (s, Crashed)
      | Some acts =>
          match paginate acts (page_size w) (page s) with
          | None => (s, Crashed)
          | Some (items, p, pages) => (set_page p s, Rendered items pages)
          end
      end
  end.

(** One run of the script, top to bottom. *)
Definition script (w : run_input) (s : session) : session * outcome :=
  let s := apply_pending s in
  if negb (city_selected w) then (s, Stopped) else
  let s := search_trigger w (category_widgets w s) in
  if negb (have_results s) then (s, Stopped) else
  match api_result w with
  | None => (s, Stopped)
  | Some acts_raw =>
      match weather_verdict (weather_rows w) with
      | None => (s, Crashed)
      | Some (rain_flag, avg_temp) =>
          if use_preset s then
            (set_use_preset false
               (set_cat_filter_new (Some (preset_categories rain_flag avg_temp)) s),
             Rerun)
          else render w acts_raw s
      end
  end.

(** A rerun starts the script again with no button pressed. *)
Definition released (w : run_input) : run_input :=
  {| city_selected := city_selected w; page_size := page_size w;
     sort_choice := sort_choice w; preset_button := false; find_button := false;
     api_result := api_result w; weather_rows := weather_rows w |}.

(** A user action: the run it triggers and, if that run asks for it, the
    rerun. *)
Definition interaction (w : run_input) (s : session) : session * outcome :=
  match script w s with
  | (s1, Rerun) => script (released w) s1
  | r => r
  end.

End Pipeline.

(** A session on page 2 of a result list, with no category selected, and
    the press of the preset button in it: twelve castles near the chosen
    city, five per page, and no weather data. *)
Definition castles : list activity :=
  repeat (act "Castle"%string None None) 12.

Definition browsing : session :=
  {| page := 2; have_results := true; active_cats := []; use_preset := false;
     cat_filter := Some []; cat_filter_new := None |}.

Definition preset_click : run_input :=
  {| city_selected := true; page_size := 5; sort_choice := SortNone;
     preset_button := true; find_button := false;
     api_result := Some castles; weather_rows := [] |}.

(** "Reset to 1 on a category-preset application": whenever a run applies
    the preset (and so asks for a rerun), the page is 1 once the rerun is
    over. *)
Definition preset_resets_page : Prop :=
  forall float_of_str w s s1,
    script float_of_str w s = (s1, Rerun) ->
    page (fst (interaction float_of_str w s)) = 1.

(** ** 2. City search

    The JSON of the City Search endpoint, as far as the script reads it:
    the status code and, under "data", items with optional "name",
    "iataCode" and "geoCode" (itself with optional "latitude" and
    "longitude"). *)
Record geo_code := {
  latitude : option float;
  longitude : option float
}.

Record city_item := {
  item_name : option string;
  iataCode : option string;
  geoCode : option geo_code
}.

Record city_response := {
  city_status : Z;
  city_data : option (list city_item)
}.

(** A suggestion: the dict with the keys "name", "iata", "lat", "lon", to
    which the adapter adds "label". *)
Record city_hit := {
  hit_name : string;
  iata : string;
  lat : float;
  lon : float;
  label : option string
}.

(** The loop of [_amadeus_city_query] over [r.json().get("data", [])]. *)
Fixpoint city_hits (items : list city_item) : list city_hit :=
  match items with
  | [] => []
  | item :: items' =>
      let geo := get_default (geoCode item)
                   {| latitude := None; longitude := None |} in
      match latitude geo, longitude geo with
      | Some la, Some lo =>
          {| hit_name := get_default (item_name item) "Unknown"%string;
             iata := get_default (iataCode item) ""%string;
             lat := la; lon := lo; label := None |} :: city_hits items'
      | _, _ => city_hits items'
      end
  end.

(** [_amadeus_city_query], given the response to its request. *)
Definition _amadeus_city_query (r : city_response) : list city_hit :=
  if negb (city_status r =? 200) then []
  else city_hits (get_default (city_data r) []).

(** [m["label"] = f"{m['name']} ({m['iata']})" if m["iata"] else m["name"]] *)
Definition with_label (m : city_hit) : city_hit :=
  {| hit_name := hit_name m; iata := iata m; lat := lat m; lon := lon m;
     label := Some (if negb (String.eqb (iata m) ""%string)
                    then (hit_name m ++ " (" ++ iata m ++ ")")%string
                    else hit_name m) |}.

(** [city_searchbox_source], given the response to the city query. *)
Definition city_searchbox_source (r : city_response) : list city_hit :=
  map with_label (_amadeus_city_query r).

(** The suggestion made from an item: its coordinates, its name or
    "Unknown", its IATA code or "", and the name, followed by the code in
    parentheses if there is one, as label. *)
Definition suggestion_of (item : city_item) (m : city_hit) : Prop :=
  (exists g, geoCode item = Some g /\
             latitude g = Some (lat m) /\ longitude g = Some (lon m)) /\
  hit_name m = get_default (item_name item) "Unknown"%string /\
  iata m = get_default (iataCode item) ""%string /\
  label m = Some (match iata m with
                  | EmptyString => hit_name m
                  | code => (hit_name m ++ " (" ++ code ++ ")")%string
                  end).

(** An item has both coordinates. *)
Definition located (item : city_item) : bool :=
  match geoCode item with
  | Some g => match latitude g, longitude g with
              | Some _, Some _ => true
              | _, _ => false
              end
  | None => false
  end.

(** ** 3. Weather lookup

    The "daily" object of an Open-Meteo answer: each series may be absent,
    and holds one value per requested day; [other_keys] says whether the
    object has any key besides the four named here.  The values are
    numbers: a null value, which the script would copy into its row, is
    outside this model. *)
Record daily := {
  other_keys : bool;
  time : option (list string);
  temperature_2m_max : option (list float);
  temperature_2m_min : option (list float);
  precipitation_sum : option (list float)
}.

Record weather_response := {
  weather_status : Z;
  weather_daily : option daily
}.

Definition empty_daily : daily :=
  {| other_keys := false; time := None; temperature_2m_max := None;
     temperature_2m_min := None; precipitation_sum := None |}.

(** [r.json().get("daily", {}) if r.status_code == 200 else {}] *)
Definition fetch_weather_once (r : weather_response) : daily :=
  if weather_status r =? 200 then get_default (weather_daily r) empty_daily
  else empty_daily.

(** [if data:] on the dict: it is not empty, whatever its keys. *)
Definition has_data (d : daily) : bool :=
  other_keys d ||
  match time d, temperature_2m_max d, temperature_2m_min d, precipitation_sum d with
  | None, None, None, None => false
  | _, _, _, _ => true
  end.

(** [data[k][0]]: [None] is the [KeyError] of an absent series or the
    [IndexError] of an empty one. *)
Definition first_value (series : option (list float)) : option float :=
  match series with
  | Some (x :: _) => Some x
  | _ => None
  end.

Section Lookback.

(** The archive answers per day; days are counted as date ordinals, and
    [year_of] is the year of a day ([dt.year]). *)
Variable archive : Z -> weather_response.
Variable year_of : Z -> Z.

(** The body of the loop of [last_three_years_weather] for one [n]: the
    rows so far, extended, left alone, or an exception. *)
Definition lookback_row (ref n : Z) : option (option weather_row) :=
  let dt := ref - 365 * n in
  let data := fetch_weather_once (archive dt) in
  if has_data data then
    match first_value (temperature_2m_max data),
          first_value (temperature_2m_min data),
          first_value (precipitation_sum data) with
    | Some hi, Some lo, Some mm =>
        Some (Some {| Year := year_of dt; MaxC := hi; MinC := lo; PrecipMm := mm |})
    | _, _, _ => None
    end
  else Some None.

Fixpoint lookback_rows (ref : Z) (ns : list Z) : option (list weather_row) :=
  match ns with
  | [] => Some []
  | n :: ns' =>
      match lookback_row ref n with
      | None => None
      | Some r =>
          match lookback_rows ref ns' with
          | None => None
          | Some rows => Some (match r with Some row => row :: rows | None => rows end)
          end
      end
  end.

(** [last_three_years_weather]: [for n in range(1, 4)]. *)
Definition last_three_years_weather (ref : Z) : option (list weather_row) :=
  lookback_rows ref [1; 2; 3].

(** A day for which the archive has something to say, and one for which
    what it says has a first value in each series. *)
Definition answered (ref n : Z) : bool :=
  has_data (fetch_weather_once (archive (ref - 365 * n))).


(** The row built from the answer for [n] years back. *)
Definition row_from (ref n : Z) (row : weather_row) : Prop :=
  let data := fetch_weather_once (archive (ref - 365 * n)) in
  Year row = year_of (ref - 365 * n) /\
  first_value (temperature_2m_max data) = Some (MaxC row) /\
  first_value (temperature_2m_min data) = Some (MinC row) /\
  first_value (precipitation_sum data) = Some (PrecipMm row).

End Lookback.

(** ** 12. Pagination controls *)

(** [disabled=page == 1] and [disabled=page == pages]. *)
Definition prev_disabled (s : session) : bool := page s =? 1.
Definition next_disabled (s : session) (pages : Z) : bool := page s =? pages.

(** The [on_click] callbacks: the page of the run that drew the buttons,
    less or plus one, is stored before the next run. *)
Definition on_prev (s : session) : session := set_page (page s - 1) s.
Definition on_next (s : session) : session := set_page (page s + 1) s.

(** The multiselect stores what the user picked under its key. *)
Definition set_cat_filter (c : list string) (s : session) : session :=
  {| page := page s; have_results := have_results s; active_cats := active_cats s;
     use_preset := use_preset s; cat_filter := Some c;
     cat_filter_new := cat_filter_new s |}.

Definition offered (cats : list string) : Prop :=
  Forall (fun c => In c CATEGORY_LIST) cats.

(** What a user can do to a session, seen with the outcome of its last run:
    anything that triggers a run (a button, a select box, new data), an
    edit of the category multiselect, which offers [CATEGORY_LIST], and
    the Prev or Next button of a rendered page when it is enabled. *)
Inductive user_step (float_of_str : string -> option float)
  : session * outcome -> session * outcome -> Prop :=
| step_run w s o :
    user_step float_of_str (s, o) (interaction float_of_str w s)
| step_edit cats w s o :
    offered cats ->
    user_step float_of_str (s, o)
      (interaction float_of_str w (set_cat_filter cats s))
| step_prev w s items pages :
    prev_disabled s = false ->
    user_step float_of_str (s, Rendered items pages)
      (interaction float_of_str (released w) (on_prev s))
| step_next w s items pages :
    next_disabled s pages = false ->
    user_step float_of_str (s, Rendered items pages)
      (interaction float_of_str (released w) (on_next s)).

Inductive reachable (float_of_str : string -> option float)
  : session * outcome -> Prop :=
| reach_new : reachable float_of_str (new_session, Stopped)
| reach_step c c' :
    reachable float_of_str c -> user_step float_of_str c c' ->
    reachable float_of_str c'.

(** What stays true of a session: the page is at least 1 and, on a rendered
    page, at most the number of pages; every category stored is one the
    multiselect offers. *)
Definition well_formed (c : session * outcome) : Prop :=
  let (s, o) := c in
  1 <= page s /\
  match o with Rendered _ pages => page s <= pages | _ => True end /\
  offered (active_cats s) /\
  (forall cats, cat_filter s = Some cats -> offered cats) /\
  (forall cats, cat_filter_new s = Some cats -> offered cats).

Definition cats_ok (s : session) : Prop :=
  offered (active_cats s) /\
  (forall cats, cat_filter s = Some cats -> offered cats) /\
  (forall cats, cat_filter_new s = Some cats -> offered cats).


(** The list the script paginates: the raw activities filtered by the
    keywords of the selection and sorted. *)
Definition shown_activities (float_of_str : string -> option float)
  (w : run_input) (acts_raw : list activity) (cats : list string)
  : option (list activity) :=
  match kw_list cats with
  | None => None
  | Some kws =>
      sort_activities float_of_str (sort_choice w) (acts_filtered kws acts_raw)
  end.

(** A session at rest after a rendered page: results are there, no preset
    is pending, and the multiselect holds the tracked selection. *)
Definition settled (s : session) : Prop :=
  have_results s = true /\ use_preset s = false /\
  cat_filter_new s = None /\ cat_filter s = Some (active_cats s).

(** Sample data: a city response with one item lacking coordinates, and an
    archive that has data for the first and third year back only. *)
Definition rome_response : city_response :=
  {| city_status := 200;
     city_data := Some
       [ {| item_name := Some "Rome"; iataCode := Some "ROM";
            geoCode := Some {| latitude := Some 41.5%float;
                               longitude := Some 12.5%float |} |};
         {| item_name := Some "Romeo"; iataCode := None; geoCode := None |};
         {| item_name := None; iataCode := None;
            geoCode := Some {| latitude := Some 0%float;
                               longitude := Some 1%float |} |} ]%string |}.

(** A run with no button pressed, and presses of the preset button and
    of "Find Activities" in a new session. *)
Definition plain_run : run_input :=
  {| city_selected := true; page_size := 5; sort_choice := SortNone;
     preset_button := false; find_button := false;
     api_result := Some castles; weather_rows := [] |}.

Definition find_click : run_input :=
  {| city_selected := true; page_size := 5; sort_choice := SortNone;
     preset_button := false; find_button := true;
     api_result := Some castles; weather_rows := [] |}.

Definition one_day (hi lo mm : float) : weather_response :=
  {| weather_status := 200;
     weather_daily := Some {| other_keys := false;
                              time := Some ["day"%string];
                              temperature_2m_max := Some [hi];
                              temperature_2m_min := Some [lo];
                              precipitation_sum := Some [mm] |} |}.

Definition sample_archive (d : Z) : weather_response :=
  if d =? 1000 - 365 then one_day 21 11 0
  else if d =? 1000 - 1095 then one_day 16 9 0.5
  else {| weather_status := 404; weather_daily := None |}.

(** * Theorems *)

(** ** Comparisons of floats *)

Lemma SFcompare_antisym x y :
  SFcompare y x = option_map CompOpp (SFcompare x y).
Proof.
  destruct x as [sx|sx| |sx mx ex], y as [sy|sy| |sy my ey]; simpl;
    try reflexivity;
    try (destruct sx; reflexivity); try (destruct sy; reflexivity);
    try (destruct sx, sy; reflexivity).
  fold (Pos.compare mx my). fold (Pos.compare my mx).
  rewrite (Z.compare_antisym ex ey), (Pos.compare_antisym mx my).
  destruct sx, sy; simpl; try reflexivity;
    destruct (ex ?= ey); simpl; try reflexivity;
    destruct (mx ?= my)%positive; reflexivity.
Qed.

Lemma leb_not_ltb x y : PrimFloat.leb x y = true -> PrimFloat.ltb y x = false.
Proof.
  rewrite FloatAxioms.leb_spec, FloatAxioms.ltb_spec. unfold SFleb, SFltb.
  rewrite (SFcompare_antisym (Prim2SF x) (Prim2SF y)).
  destruct (SFcompare (Prim2SF x) (Prim2SF y)) as [[]|]; simpl; auto; discriminate.
Qed.

Lemma SFltb_rank x y :
  x <> S754_nan -> y <> S754_nan ->
  (SFltb x y = true <-> lex_lt (SFrank x) (SFrank y)).
Proof.
  intros Hx Hy. unfold SFltb, lex_lt.
  destruct x as [sx|sx| |sx mx ex], y as [sy|sy| |sy my ey];
    try congruence; try destruct sx; try destruct sy; simpl;
    try (split; [discriminate | lia]); try (split; [lia | reflexivity]);
    fold (Pos.compare mx my);
    destruct (Z.compare_spec ex ey); destruct (Pos.compare_spec mx my); simpl;
    split; try discriminate; try reflexivity; lia.
Qed.

Lemma SFeqb_rank x y :
  x <> S754_nan -> y <> S754_nan ->
  (SFeqb x y = true <-> lex_eq (SFrank x) (SFrank y)).
Proof.
  intros Hx Hy. unfold SFeqb, lex_eq.
  destruct x as [sx|sx| |sx mx ex], y as [sy|sy| |sy my ey];
    try congruence; try destruct sx; try destruct sy; simpl;
    try (split; [discriminate | lia]); try (split; [lia | reflexivity]);
    fold (Pos.compare mx my);
    destruct (Z.compare_spec ex ey); destruct (Pos.compare_spec mx my); simpl;
    split; try discriminate; try reflexivity; lia.
Qed.

Lemma not_nan_SF x : not_nan x = true -> Prim2SF x <> S754_nan.
Proof.
  unfold not_nan. rewrite FloatAxioms.eqb_spec. intros H E.
  rewrite E in H. discriminate H.
Qed.

Lemma ltb_rank x y :
  not_nan x = true -> not_nan y = true ->
  (PrimFloat.ltb x y = true <-> lex_lt (rank x) (rank y)).
Proof.
  intros Hx Hy. rewrite FloatAxioms.ltb_spec.
  apply SFltb_rank; now apply not_nan_SF.
Qed.

Lemma ltb_rank_false x y :
  not_nan x = true -> not_nan y = true ->
  (PrimFloat.ltb x y = false <-> ~ lex_lt (rank x) (rank y)).
Proof.
  intros Hx Hy. rewrite <- (ltb_rank x y Hx Hy).
  destruct (PrimFloat.ltb x y); split; congruence.
Qed.

Lemma eqb_rank x y :
  not_nan x = true -> not_nan y = true ->
  (PrimFloat.eqb x y = true <-> lex_eq (rank x) (rank y)).
Proof.
  intros Hx Hy. rewrite FloatAxioms.eqb_spec.
  apply SFeqb_rank; now apply not_nan_SF.
Qed.

Lemma eqb_rank_false x y :
  not_nan x = true -> not_nan y = true ->
  (PrimFloat.eqb x y = false <-> ~ lex_eq (rank x) (rank y)).
Proof.
  intros Hx Hy. rewrite <- (eqb_rank x y Hx Hy).
  destruct (PrimFloat.eqb x y); split; congruence.
Qed.

Lemma leb_rank x y :
  not_nan x = true -> not_nan y = true ->
  (PrimFloat.leb x y = true <-> ~ lex_lt (rank y) (rank x)).
Proof.
  intros Hx Hy. rewrite <- (ltb_rank_false y x Hy Hx).
  rewrite FloatAxioms.leb_spec, FloatAxioms.ltb_spec. unfold SFleb, SFltb.
  rewrite (SFcompare_antisym (Prim2SF x) (Prim2SF y)).
  apply not_nan_SF in Hx, Hy.
  destruct (Prim2SF x) as [sx|sx| |sx mx ex], (Prim2SF y) as [sy|sy| |sy my ey];
    try congruence; simpl;
    repeat match goal with
           | |- context [match ?c with _ => _ end] => destruct c; simpl
           end; split; congruence.
Qed.

Lemma eqb_nan_r x c : not_nan c = false -> PrimFloat.eqb x c = false.
Proof.
  unfold not_nan. rewrite !FloatAxioms.eqb_spec. intros Hc.
  destruct (Prim2SF c) eqn:E.
  1, 2, 4: exfalso;
    match type of Hc with
    | SFeqb ?v ?v = false =>
        assert (Hn : v <> S754_nan) by discriminate;
        rewrite (proj2 (SFeqb_rank v v Hn Hn)) in Hc;
        [discriminate | unfold lex_eq; auto]
    end.
  unfold SFeqb. destruct (Prim2SF x); reflexivity.
Qed.

(** Facts about [<], [<=] and [==] on numbers, through the ranks. *)
Ltac rank_facts :=
  repeat match goal with
         | H : PrimFloat.ltb ?x ?y = true,
           Hx : not_nan ?x = true, Hy : not_nan ?y = true |- _ =>
             apply (proj1 (ltb_rank x y Hx Hy)) in H
         | H : PrimFloat.ltb ?x ?y = false,
           Hx : not_nan ?x = true, Hy : not_nan ?y = true |- _ =>
             apply (proj1 (ltb_rank_false x y Hx Hy)) in H
         | H : PrimFloat.eqb ?x ?y = true,
           Hx : not_nan ?x = true, Hy : not_nan ?y = true |- _ =>
             apply (proj1 (eqb_rank x y Hx Hy)) in H
         | H : PrimFloat.eqb ?x ?y = false,
           Hx : not_nan ?x = true, Hy : not_nan ?y = true |- _ =>
             apply (proj1 (eqb_rank_false x y Hx Hy)) in H
         | H : PrimFloat.leb ?x ?y = true,
           Hx : not_nan ?x = true, Hy : not_nan ?y = true |- _ =>
             apply (proj1 (leb_rank x y Hx Hy)) in H
         end;
  lazymatch goal with
  | |- PrimFloat.ltb _ _ = true => apply ltb_rank; [assumption..|]
  | |- PrimFloat.ltb _ _ = false => apply ltb_rank_false; [assumption..|]
  | |- PrimFloat.eqb _ _ = true => apply eqb_rank; [assumption..|]
  | |- PrimFloat.eqb _ _ = false => apply eqb_rank_false; [assumption..|]
  | |- PrimFloat.leb _ _ = true => apply leb_rank; [assumption..|]
  | |- _ => idtac
  end;
  unfold lex_lt, lex_eq in *; lia.

(** ** The weather classifier *)

Lemma sum_bool_acc acc bs :
  Py.sum_bool acc bs = acc + Z.of_nat (List.length (filter (fun b => b) bs)).
Proof.
  revert acc; induction bs as [|b bs IH]; intros acc; simpl.
  - lia.
  - rewrite IH. destruct b; simpl List.length; lia.
Qed.

Lemma filter_map_length {A B} (f : A -> B) (p : B -> bool) (l : list A) :
  List.length (filter p (map f l)) = List.length (filter (fun a => p (f a)) l).
Proof.
  induction l as [|a l IH]; simpl; [reflexivity|].
  destruct (p (f a)); simpl; rewrite IH; reflexivity.
Qed.

Lemma sum_float_fold acc xs :
  Py.sum_float acc xs = fold_left PrimFloat.add xs acc.
Proof. revert acc; induction xs as [|x xs IH]; intros acc; simpl; auto. Qed.

(** C1: for 0 to 3 weather rows [classify_weather] raises nothing; the rain
    flag is set exactly when at least two rows have positive precipitation;
    the temperature is the arithmetic mean of the per-row midpoints, and for
    no rows at all the result is (False, NaN). *)
Theorem classify_weather_spec (rows : list weather_row) :
  (List.length rows <= 3)%nat ->
  exists rain avg,
    classify_weather rows = Some (rain, avg) /\
    (rain = true <-> (2 <= wet_samples rows)%nat) /\
    (rows <> [] -> avg = arithmetic_mean (map midpoint rows)) /\
    (rows = [] -> rain = false /\ avg = PrimFloat.nan).
Proof.
  intros Hlen.
  assert (Hrain : (2 <=? Py.sum_bool 0
                           (map (fun r => PrimFloat.ltb 0%float (PrecipMm r)) rows)) = true
                  <-> (2 <= wet_samples rows)%nat).
  { rewrite sum_bool_acc, filter_map_length, Z.leb_le.
    unfold wet_samples. lia. }
  destruct rows as [|r1 rows].
  - exists false, PrimFloat.nan. split; [reflexivity|]. split; [exact Hrain|].
    split; [intros H; contradiction H|]; auto.
  - assert (Hdiv : PrimFloat.eqb (Py.float_of_nat (List.length (r1 :: rows))) 0%float
                   = false).
    { destruct rows as [|r2 [|r3 [|r4 rows]]]; try reflexivity.
      simpl in Hlen; lia. }
    unfold classify_weather, Py.truediv. rewrite Hdiv.
    eexists _, _. split; [reflexivity|]. split; [exact Hrain|]. split.
    + intros _. unfold arithmetic_mean.
      rewrite sum_float_fold, length_map. reflexivity.
    + discriminate.
Qed.

(** The classifier on the scenario rows. *)
Lemma classify_weather_spec_witness :
  (List.length scenario_rows <= 3)%nat /\
  exists rain avg,
    classify_weather scenario_rows = Some (rain, avg) /\
    (rain = true <-> (2 <= wet_samples scenario_rows)%nat) /\
    (scenario_rows <> [] -> avg = arithmetic_mean (map midpoint scenario_rows)) /\
    (scenario_rows = [] -> rain = false /\ avg = PrimFloat.nan).
Proof.
  split; [simpl; lia|].
  apply (classify_weather_spec scenario_rows). simpl; lia.
Defined.

(** The scenario end to end: two wet years out of three, mean midpoint
    14.1666..., hence the rain preset. *)
Example scenario_verdict :
  classify_weather scenario_rows = Some (true, (85 / 6)%float) /\
  preset_categories true (85 / 6)%float
  = ["Museums"; "Restaurants"; "Historical"; "Sightseeing"]%string.
Proof. split; reflexivity. Qed.

(** C2: the decision table of [preset_categories], in priority order: rain
    wins at every temperature; without rain a temperature below 15 gives the
    cold set and one of at least 15 (15.0 itself included) the warm set. *)
Theorem preset_categories_table :
  (forall t, preset_categories true t
             = ["Museums"; "Restaurants"; "Historical"; "Sightseeing"]%string) /\
  (forall t, PrimFloat.ltb t 15%float = true ->
             preset_categories false t
             = ["Museums"; "Historical"; "Tours"; "Sightseeing"]%string) /\
  (forall t, PrimFloat.leb 15%float t = true ->
             preset_categories false t = ["Wine"; "Historical"]%string) /\
  preset_categories false 15%float = ["Wine"; "Historical"]%string.
Proof.
  split; [reflexivity|]. split; [|split].
  - intros t Ht. unfold preset_categories. rewrite Ht. reflexivity.
  - intros t Ht. unfold preset_categories.
    rewrite (leb_not_ltb _ _ Ht). reflexivity.
  - reflexivity.
Qed.

(** The two sides of the boundary: the double nearest 14.9 is cold, 15.0
    and whatever is hotter, +infinity included, is warm. *)
Example preset_boundary :
  preset_categories false 0x1.dcccccccccccdp+3%float
  = ["Museums"; "Historical"; "Tours"; "Sightseeing"]%string /\
  preset_categories false 15%float = ["Wine"; "Historical"]%string /\
  preset_categories false PrimFloat.infinity = ["Wine"; "Historical"]%string.
Proof. repeat split. Qed.

(** C3: NaN is not below 15, so without rain a no-data temperature takes
    the third branch; this is the preset computed from zero weather rows. *)
Theorem preset_categories_nan :
  PrimFloat.ltb PrimFloat.nan 15%float = false /\
  preset_categories false PrimFloat.nan = ["Wine"; "Historical"]%string /\
  option_map (fun v => preset_categories (fst v) (snd v)) (classify_weather [])
  = Some ["Wine"; "Historical"]%string.
Proof. repeat split. Qed.

(** ** The three preset sets *)

Lemma historical_in_all s : In s preset_sets -> In "Historical"%string s.
Proof.
  intros [<-|[<-|[<-|[]]]]; simpl; auto.
Qed.

Lemma rain_cold_not_same : ~ same_set rain_set cold_set.
Proof.
  intros H. destruct (H "Restaurants"%string) as [H1 _].
  assert (Hin : In "Restaurants"%string rain_set) by (simpl; auto).
  apply H1 in Hin. simpl in Hin.
  repeat (destruct Hin as [Hin|Hin]; [discriminate Hin|]). exact Hin.
Qed.

Lemma wine_only_warm s : In "Wine"%string s -> s = rain_set \/ s = cold_set -> False.
Proof.
  intros Hin [->| ->]; simpl in Hin;
    repeat (destruct Hin as [Hin|Hin]; [discriminate Hin|]); exact Hin.
Qed.

(** C9, as stated, fails: the rain set and the cold set share Historical
    (and Museums and Sightseeing) without being equal. *)
Lemma preset_sets_partial_overlap : ~ no_partial_overlap preset_sets.
Proof.
  intros H.
  destruct (H rain_set cold_set) as [Heq|Hdis]; try (simpl; auto; fail).
  - exact (rain_cold_not_same Heq).
  - apply (Hdis "Historical"%string); simpl; auto.
Qed.

(** C9, amended: [preset_categories] always returns one of the three fixed
    lists; as sets these are pairwise different, and none is disjoint from
    another, since Historical belongs to all three. *)
Theorem preset_sets_distinct_overlapping :
  (forall rain t, In (preset_categories rain t) preset_sets) /\
  (forall s, In s preset_sets -> In "Historical"%string s) /\
  ~ same_set rain_set cold_set /\
  ~ same_set rain_set warm_set /\
  ~ same_set cold_set warm_set /\
  (forall a b, In a preset_sets -> In b preset_sets -> ~ disjoint a b).
Proof.
  split; [|split; [|split; [|split; [|split]]]].
  - intros rain t. unfold preset_categories, preset_sets.
    destruct rain; [|destruct (PrimFloat.ltb t 15)]; simpl; auto.
  - exact historical_in_all.
  - exact rain_cold_not_same.
  - intros H. apply (wine_only_warm rain_set); auto.
    apply H. simpl; auto.
  - intros H. apply (wine_only_warm cold_set); auto.
    apply H. simpl; auto.
  - intros a b Ha Hb Hdis.
    apply (Hdis "Historical"%string); apply historical_in_all; assumption.
Qed.

(** ** The category filter *)

Lemma prefix_iff kw s :
  String.prefix kw s = true <-> exists post, s = (kw ++ post)%string.
Proof.
  revert s; induction kw as [|c kw IH]; intros s.
  - split; [intros _; exists s; reflexivity | intros _; destruct s; reflexivity].
  - destruct s as [|d s]; simpl.
    + split; [discriminate | intros [post H]; discriminate H].
    + destruct (ascii_dec c d) as [->|Hne].
      * rewrite IH. split; intros [post H]; exists post.
        -- now rewrite H.
        -- now injection H.
      * split; [discriminate|]. intros [post H]. injection H as Hc _.
        symmetry in Hc. contradiction.
Qed.

Lemma contains_iff kw s : contains kw s = true <-> substring_of kw s.
Proof.
  unfold substring_of. induction s as [|d s IH]; cbn [contains].
  - rewrite orb_false_r, prefix_iff. split.
    + intros [post H]. exists ""%string, post. exact H.
    + intros [[|c pre] [post H]]; [exists post; exact H | discriminate H].
  - rewrite orb_true_iff, prefix_iff, IH. split.
    + intros [[post H]|[pre [post H]]].
      * exists ""%string, post. exact H.
      * exists (String d pre), post. simpl. now rewrite H.
    + intros [[|c pre] [post H]].
      * left. exists post. exact H.
      * right. exists pre, post. simpl in H. now injection H.
Qed.

Lemma passes_iff kws a : passes kws a = true <-> passes_spec kws a.
Proof.
  unfold passes, passes_spec. rewrite orb_true_iff, existsb_exists.
  fold (search_text a). split.
  - intros [H|[kw [Hin Hc]]].
    + left. destruct kws; [reflexivity | discriminate H].
    + right. exists kw. split; [exact Hin | now apply contains_iff].
  - intros [->|[kw [Hin Hs]]].
    + left. reflexivity.
    + right. exists kw. split; [exact Hin | now apply contains_iff].
Qed.

(** What [selects] says about membership, and that it leaves no choice. *)
Lemma selects_In {A} (P : A -> Prop) l l' :
  selects P l l' -> forall a, In a l' <-> In a l /\ P a.
Proof.
  induction 1 as [|a l l' Ha _ IH|a l l' Ha _ IH]; intros x; simpl.
  - tauto.
  - rewrite IH. split.
    + intros [<-|[H1 H2]]; auto.
    + intros [[<-|H1] H2]; auto.
  - rewrite IH. split.
    + intros [H1 H2]; auto.
    + intros [[<-|H1] H2]; [contradiction | auto].
Qed.

Lemma selects_unique {A} (P : A -> Prop) l l1 :
  selects P l l1 -> forall l2, selects P l l2 -> l1 = l2.
Proof.
  induction 1 as [|a l l' Ha _ IH|a l l' Ha _ IH]; intros l2 H2;
    inversion H2; subst; try contradiction; auto.
  f_equal. auto.
Qed.

(** C4: the category filter keeps, in input order, exactly the activities
    that pass: every activity when there is no keyword, otherwise those
    whose lower-cased "name shortDescription" text contains a keyword. *)
Theorem acts_filtered_spec (kws : list string) (acts_raw : list activity) :
  selects (passes_spec kws) acts_raw (acts_filtered kws acts_raw) /\
  (forall l, selects (passes_spec kws) acts_raw l -> l = acts_filtered kws acts_raw) /\
  (forall a, In a (acts_filtered kws acts_raw) <-> In a acts_raw /\ passes_spec kws a).
Proof.
  assert (Hsel : selects (passes_spec kws) acts_raw (acts_filtered kws acts_raw)).
  { unfold acts_filtered. induction acts_raw as [|a l IH]; simpl.
    - constructor.
    - destruct (passes kws a) eqn:Hp.
      + apply selects_keep; [now apply passes_iff | exact IH].
      + apply selects_drop; [|exact IH].
        intros H. apply passes_iff in H. congruence. }
  split; [exact Hsel|]. split.
  - intros l Hl. exact (selects_unique _ _ _ Hl _ Hsel).
  - exact (selects_In _ _ _ Hsel).
Qed.

(** The spec's filter scenario: with the selection {Wine} the vineyard tour
    passes and the city museum does not. *)
Example wine_filter_scenario :
  kw_list ["Wine"%string] = Some ["wine"%string] /\
  acts_filtered ["wine"%string]
    [ {| name := Some "Vineyard Tour"%string;
         shortDescription := Some "Taste local wine"%string;
         rating := None; price := None |};
      {| name := Some "City Museum"%string; shortDescription := None;
         rating := None; price := None |} ]
  = [ {| name := Some "Vineyard Tour"%string;
         shortDescription := Some "Taste local wine"%string;
         rating := None; price := None |} ].
Proof. split; reflexivity. Qed.

(** ** Stable sorting of a decorated list *)

Section Decorated.

Context {A : Type}.

Lemma insert_by_perm k a (l : list (float * A)) :
  Permutation ((k, a) :: l) (insert_by k a l).
Proof.
  induction l as [|[k' a'] l IH]; simpl; [reflexivity|].
  destruct (PrimFloat.ltb k k'); [reflexivity|].
  rewrite perm_swap. now apply perm_skip.
Qed.

Lemma insert_by_sorted k a (l : list (float * A)) :
  not_nan k = true -> numbers l ->
  StronglySorted ascending l -> StronglySorted ascending (insert_by k a l).
Proof.
  intros Hk Hl Hs. induction Hs as [|[k' a'] l Hs IH Hall]; simpl.
  - repeat constructor.
  - inversion Hl as [|? ? Hk' Hl']; subst. simpl in Hk'.
    destruct (PrimFloat.ltb k k') eqn:Hlt.
    + constructor; [constructor; assumption|].
      constructor.
      * unfold ascending; simpl. rank_facts.
      * rewrite Forall_forall in *. intros [kq aq] Hq.
        pose proof (Hall _ Hq) as H1. pose proof (Hl' _ Hq) as H2.
        unfold ascending in *; simpl in *. rank_facts.
    + constructor; [auto|].
      eapply Permutation_Forall; [apply insert_by_perm|].
      constructor; [exact Hlt | exact Hall].
Qed.

Lemma filter_none {B} (f : B -> bool) (l : list B) :
  Forall (fun x => f x = false) l -> filter f l = [].
Proof.
  induction 1 as [|x l Hx _ IH]; simpl; [reflexivity|]. now rewrite Hx.
Qed.

Lemma filter_head {B} (f : B -> bool) (x : B) (l : list B) :
  filter f (x :: l) = (if f x then [x] else []) ++ filter f l.
Proof. simpl. now destruct (f x). Qed.

Lemma insert_by_filter c k a (l : list (float * A)) :
  not_nan c = true -> not_nan k = true -> numbers l ->
  StronglySorted ascending l ->
  filter (has_key c) (insert_by k a l)
  = filter (has_key c) l ++ (if PrimFloat.eqb k c then [(k, a)] else []).
Proof.
  intros Hc Hk Hl Hs. induction Hs as [|[k' a'] l Hs IH Hall].
  - simpl. unfold has_key; simpl. now destruct (PrimFloat.eqb k c).
  - inversion Hl as [|? ? Hk' Hl']; subst. simpl in Hk'.
    cbn [insert_by]. destruct (PrimFloat.ltb k k') eqn:Hlt.
    + rewrite (filter_head _ (k, a)). unfold has_key at 1; cbn [fst].
      destruct (PrimFloat.eqb k c) eqn:Hkc; [|now rewrite app_nil_r].
      assert (Hnone : Forall (fun q => has_key c q = false) ((k', a') :: l)).
      { constructor.
        - unfold has_key; simpl. rank_facts.
        - rewrite Forall_forall in *. intros [kq aq] Hq.
          pose proof (Hall _ Hq) as H1. pose proof (Hl' _ Hq) as H2.
          unfold has_key, ascending in *; simpl in *. rank_facts. }
      rewrite (filter_none _ _ Hnone). reflexivity.
    + rewrite (filter_head _ (k', a')), (filter_head _ (k', a') l), (IH Hl').
      now rewrite app_assoc.
Qed.

Lemma stable_sort_from (l acc : list (float * A)) :
  numbers acc -> numbers l -> StronglySorted ascending acc ->
  let r := fold_left (fun acc p => insert_by (fst p) (snd p) acc) l acc in
  StronglySorted ascending r /\ Permutation (acc ++ l) r /\
  forall c, not_nan c = true ->
            filter (has_key c) r = filter (has_key c) acc ++ filter (has_key c) l.
Proof.
  revert acc. induction l as [|[k a] l IH]; intros acc Hacc Hl Hs;
    cbn [fold_left fst snd].
  - split; [exact Hs|]. split; [now rewrite app_nil_r|].
    intros c _. now rewrite app_nil_r.
  - inversion Hl as [|? ? Hk Hl']; subst. simpl in Hk.
    assert (Hins : numbers (insert_by k a acc)).
    { eapply Permutation_Forall; [apply insert_by_perm|]. now constructor. }
    destruct (IH (insert_by k a acc) Hins Hl' (insert_by_sorted k a acc Hk Hacc Hs))
      as (H1 & H2 & H3).
    split; [exact H1|]. split.
    + rewrite <- H2. rewrite <- insert_by_perm.
      now rewrite <- Permutation_middle.
    + intros c Hc. rewrite (H3 c Hc), (insert_by_filter c k a acc Hc Hk Hacc Hs).
      rewrite <- app_assoc, (filter_head _ (k, a) l). reflexivity.
Qed.

Lemma stable_sort_spec (l : list (float * A)) :
  numbers l ->
  StronglySorted ascending (stable_sort l) /\ Permutation l (stable_sort l) /\
  forall c, not_nan c = true ->
            filter (has_key c) (stable_sort l) = filter (has_key c) l.
Proof.
  intros Hl.
  destruct (stable_sort_from l [] (Forall_nil _) Hl (SSorted_nil _)) as (H1 & H2 & H3).
  split; [exact H1|]. split; [exact H2|]. exact H3.
Qed.

End Decorated.

(** ** [list.sort] on activities *)

Lemma StronglySorted_snoc {B} (R : B -> B -> Prop) l x :
  StronglySorted R l -> Forall (fun y => R y x) l -> StronglySorted R (l ++ [x]).
Proof.
  induction 1 as [|a l Hs IH Ha]; intros Hx; simpl.
  - repeat constructor.
  - inversion Hx; subst. constructor; [auto|].
    apply Forall_app. split; [exact Ha | repeat constructor; assumption].
Qed.

Lemma StronglySorted_rev {B} (R : B -> B -> Prop) l :
  StronglySorted R l -> StronglySorted (fun x y => R y x) (rev l).
Proof.
  induction 1 as [|a l Hs IH Ha]; simpl; [constructor|].
  apply StronglySorted_snoc; [exact IH | now apply Forall_rev].
Qed.

Lemma StronglySorted_map {B C} (R : C -> C -> Prop) (f : B -> C) l :
  StronglySorted (fun x y => R (f x) (f y)) l -> StronglySorted R (map f l).
Proof.
  induction 1 as [|a l Hs IH Ha]; simpl; constructor; auto.
  now apply Forall_map.
Qed.

Lemma StronglySorted_weaken {B} (R R' : B -> B -> Prop) (P : B -> Prop) l :
  (forall x y, P x -> P y -> R x y -> R' x y) ->
  Forall P l -> StronglySorted R l -> StronglySorted R' l.
Proof.
  intros HR HP. induction 1 as [|a l Hs IH Ha]; constructor.
  - inversion HP; auto.
  - inversion HP as [|? ? Hpa Hpl]; subst.
    rewrite Forall_forall in *. intros y Hy. apply HR; auto.
Qed.

Section SortByKey.

Variable key : activity -> option float.

Lemma keys_of_usable (l : list activity) :
  forallb (usable_key key) l = true ->
  exists d, keys_of key l = Some d /\ map snd d = l /\ Forall (tagged key) d.
Proof.
  induction l as [|a l IH]; simpl.
  - intros _. exists []. repeat split; constructor.
  - rewrite andb_true_iff. intros [Ha Hl].
    destruct (IH Hl) as (d & Hd & Hmap & Htag).
    unfold usable_key in Ha. destruct (key a) as [k|] eqn:Hk; [|discriminate].
    rewrite Hd. exists ((k, a) :: d). split; [reflexivity|]. split.
    + simpl. now rewrite Hmap.
    + constructor; [split; assumption | exact Htag].
Qed.

Lemma tagged_numbers d : Forall (tagged key) d -> numbers d.
Proof. apply Forall_impl. intros p [_ H]. exact H. Qed.

Lemma tagged_key_value p : tagged key p -> key_value key (snd p) = fst p.
Proof. intros [H _]. unfold key_value. now rewrite H. Qed.

Lemma tagged_filter c d :
  Forall (tagged key) d ->
  filter (same_key key c) (map snd d) = map snd (filter (has_key c) d).
Proof.
  intros Hd. rewrite filter_map_swap. f_equal.
  apply filter_ext_in. intros p Hp.
  unfold same_key, has_key.
  rewrite (tagged_key_value p); [reflexivity|].
  rewrite Forall_forall in Hd. now apply Hd.
Qed.

Lemma tagged_in_order reverse d :
  Forall (tagged key) d ->
  StronglySorted (decorated_order reverse) d ->
  StronglySorted (in_order key reverse) (map snd d).
Proof.
  intros Hd Hs. apply StronglySorted_map.
  eapply StronglySorted_weaken; [|exact Hd|exact Hs].
  intros p q Hp Hq. unfold in_order, decorated_order, ascending.
  rewrite (tagged_key_value p Hp), (tagged_key_value q Hq).
  destruct Hp as [_ Hp], Hq as [_ Hq].
  destruct reverse; intros H; rank_facts.
Qed.

(** [list.sort] with usable keys: the call returns; the result is a
    rearrangement of the list, in ascending or descending order of the keys,
    and the activities that share a key stay in their input order. *)
Lemma list_sort_spec (reverse : bool) (l : list activity) :
  forallb (usable_key key) l = true ->
  exists sorted,
    list_sort key reverse l = Some sorted /\
    Permutation l sorted /\
    StronglySorted (in_order key reverse) sorted /\
    forall c, filter (same_key key c) sorted = filter (same_key key c) l.
Proof.
  intros Hl. destruct (keys_of_usable l Hl) as (d & Hd & Hmap & Htag).
  unfold list_sort. rewrite Hd.
  set (d1 := if reverse then rev d else d).
  assert (Htag1 : Forall (tagged key) d1) by (destruct reverse; [apply Forall_rev|]; exact Htag).
  destruct (stable_sort_spec d1 (tagged_numbers d1 Htag1)) as (Hs & Hp & Hf).
  set (s := stable_sort d1) in *.
  set (r := if reverse then rev s else s).
  assert (Hperm : Permutation d r).
  { subst r d1. destruct reverse; [|exact Hp].
    rewrite <- Permutation_rev, <- Hp. apply Permutation_rev. }
  assert (Htagr : Forall (tagged key) r) by (eapply Permutation_Forall; eassumption).
  exists (map snd r). split; [reflexivity|]. split; [|split].
  - rewrite <- Hmap. now apply Permutation_map.
  - apply tagged_in_order; [exact Htagr|].
    subst r. destruct reverse; [|exact Hs].
    now apply StronglySorted_rev.
  - intros c. rewrite <- Hmap, !tagged_filter by assumption. f_equal.
    destruct (not_nan c) eqn:Hc.
    + subst r d1. destruct reverse; [|now apply Hf].
      rewrite filter_rev, (Hf c Hc), filter_rev. apply rev_involutive.
    + rewrite !filter_none; auto;
        apply Forall_forall; intros p _; now apply eqb_nan_r.
Qed.

(** The three properties leave no choice: whatever list is a rearrangement
    in key order that keeps equal keys in input order is the one [list_sort]
    returns.  So the result does not depend on the sorting algorithm. *)
Lemma ordered_stable_unique (r1 r2 : list activity) :
  Forall (fun a => not_nan (key_value key a) = true) r1 ->
  Forall (fun a => not_nan (key_value key a) = true) r2 ->
  StronglySorted (in_order key false) r1 ->
  StronglySorted (in_order key false) r2 ->
  (forall c, filter (same_key key c) r1 = filter (same_key key c) r2) ->
  r1 = r2.
Proof.
  assert (Hself : forall a, not_nan (key_value key a) = true ->
                            same_key key (key_value key a) a = true)
    by (intros a Ha; exact Ha).
  revert r2. induction r1 as [|a r1 IH]; intros r2 N1 N2 S1 S2 Hf.
  - destruct r2 as [|b r2]; [reflexivity|]. exfalso.
    inversion N2 as [|? ? Nb _]; subst.
    specialize (Hf (key_value key b)).
    rewrite filter_head, (Hself b Nb) in Hf. discriminate Hf.
  - inversion N1 as [|? ? Na N1']; subst.
    destruct r2 as [|b r2].
    { exfalso. specialize (Hf (key_value key a)).
      rewrite filter_head, (Hself a Na) in Hf. discriminate Hf. }
    inversion N2 as [|? ? Nb N2']; subst.
    inversion S1 as [|? ? S1' A1]; subst. inversion S2 as [|? ? S2' A2]; subst.
    unfold in_order in A1, A2.
    assert (Hab : PrimFloat.leb (key_value key b) (key_value key a) = true).
    { assert (Hin : In a (filter (same_key key (key_value key a)) (b :: r2))).
      { rewrite <- Hf. apply filter_In. split; [left; reflexivity | exact Na]. }
      apply filter_In in Hin. destruct Hin as [[->|Hin] _].
      - rank_facts.
      - rewrite Forall_forall in A2. exact (A2 a Hin). }
    assert (Hba : PrimFloat.leb (key_value key a) (key_value key b) = true).
    { assert (Hin : In b (filter (same_key key (key_value key b)) (a :: r1))).
      { rewrite Hf. apply filter_In. split; [left; reflexivity | exact Nb]. }
      apply filter_In in Hin. destruct Hin as [[->|Hin] _].
      - rank_facts.
      - rewrite Forall_forall in A1. exact (A1 b Hin). }
    assert (Heq : same_key key (key_value key a) b = true)
      by (unfold same_key; rank_facts).
    assert (E : a = b).
    { specialize (Hf (key_value key a)).
      rewrite !filter_head, (Hself a Na), Heq in Hf. now injection Hf. }
    subst b. f_equal. apply IH; auto.
    intros c. specialize (Hf c). rewrite !filter_head in Hf.
    now apply app_inv_head in Hf.
Qed.

Lemma usable_not_nan (l : list activity) :
  forallb (usable_key key) l = true ->
  Forall (fun a => not_nan (key_value key a) = true) l.
Proof.
  rewrite forallb_forall, Forall_forall. intros H a Ha.
  specialize (H a Ha). unfold usable_key, key_value in *.
  destruct (key a); [exact H | discriminate H].
Qed.

Lemma list_sort_unique (reverse : bool) (l r : list activity) :
  forallb (usable_key key) l = true ->
  Permutation l r ->
  StronglySorted (in_order key reverse) r ->
  (forall c, filter (same_key key c) r = filter (same_key key c) l) ->
  list_sort key reverse l = Some r.
Proof.
  intros Hl Hp Hs Hf.
  destruct (list_sort_spec reverse l Hl) as (r' & Hr' & Hp' & Hs' & Hf').
  rewrite Hr'. f_equal.
  pose proof (usable_not_nan l Hl) as Nl.
  assert (N : Forall (fun a => not_nan (key_value key a) = true) r)
    by (eapply Permutation_Forall; eassumption).
  assert (N' : Forall (fun a => not_nan (key_value key a) = true) r')
    by (eapply Permutation_Forall; eassumption).
  destruct reverse.
  - rewrite <- (rev_involutive r'), <- (rev_involutive r). f_equal.
    apply ordered_stable_unique.
    + now apply Forall_rev.
    + now apply Forall_rev.
    + apply StronglySorted_rev in Hs'. exact Hs'.
    + apply StronglySorted_rev in Hs. exact Hs.
    + intros c. rewrite !filter_rev, Hf, Hf'. reflexivity.
  - apply ordered_stable_unique; auto.
    intros c. now rewrite Hf, Hf'.
Qed.

End SortByKey.

Lemma StronglySorted_split {B} (R : B -> B -> Prop) l1 a l2 :
  StronglySorted R (l1 ++ a :: l2) ->
  Forall (fun b => R b a) l1 /\ Forall (R a) l2.
Proof.
  induction l1 as [|x l1 IH]; simpl; intros H; inversion H as [|? ? Hs Hx]; subst.
  - split; [constructor | assumption].
  - destruct (IH Hs) as [H1 H2]. split; [|exact H2].
    constructor; [|exact H1].
    rewrite Forall_forall in Hx. apply Hx. apply in_elt.
Qed.

Lemma filter_within {B} (f g : B -> bool) (l : list B) :
  (forall x, f x = true -> g x = true) -> filter f (filter g l) = filter f l.
Proof.
  intros Hfg. induction l as [|x l IH]; simpl; [reflexivity|].
  destruct (g x) eqn:Hg; simpl; rewrite IH; [reflexivity|].
  destruct (f x) eqn:Hf; [|reflexivity].
  rewrite (Hfg x Hf) in Hg. discriminate Hg.
Qed.

Section SortKeys.

Variable float_of_str : string -> option float.

Lemma rating_key_unrated a :
  unrated a = true -> rating_key float_of_str a = Some (-1)%float.
Proof.
  unfold unrated, rating_key. destruct (rating a) as [v|]; [|reflexivity].
  destruct (truthy v); [discriminate | reflexivity].
Qed.

Lemma price_key_no_amount a :
  no_amount a = true -> price_key float_of_str a = Some PrimFloat.infinity.
Proof.
  unfold no_amount, price_key. destruct (price a) as [p|]; [|reflexivity].
  destruct (amount p); [discriminate | reflexivity].
Qed.

(** C5, amended: the key of a rating sort is the rating as a float when
    the rating is truthy, and -1 when it is missing or falsy (0, the empty
    string, null); the key of a price sort is the amount as a float,
    +infinity when it is missing.  A rating or price sort whose keys are
    all numbers returns a rearrangement of the list in ascending or
    descending key order in which activities with equal keys keep their
    input order, and it is the only list of that kind.  So in a rating sort
    an activity without a usable rating is followed (descending) or
    preceded (ascending) only by keys of at most -1, hence by no non-zero
    number rating above -1; and in a price sort an activity without amount
    is followed (ascending) or preceded (descending) only by keys, hence
    number amounts, of +infinity. *)
Theorem sort_keys_and_order (o : sort_order) (acts : list activity) :
  o <> SortNone ->
  forallb (usable_key (sort_key float_of_str o)) acts = true ->
  let key := sort_key float_of_str o in
  (forall a v, rating a = Some v -> truthy v = true ->
               rating_key float_of_str a = py_float float_of_str v) /\
  (forall a v, rating a = Some v -> truthy v = false ->
               rating_key float_of_str a = Some (-1)%float) /\
  (forall a, rating a = None -> rating_key float_of_str a = Some (-1)%float) /\
  (forall a p v, price a = Some p -> amount p = Some v ->
                 price_key float_of_str a = py_float float_of_str v) /\
  (forall a, no_amount a = true ->
             price_key float_of_str a = Some PrimFloat.infinity) /\
  key = (match o with
         | RatingDown | RatingUp => rating_key float_of_str
         | _ => price_key float_of_str
         end) /\
  exists sorted,
    sort_activities float_of_str o acts = Some sorted /\
    Permutation acts sorted /\
    StronglySorted (in_order key (reverse_of o)) sorted /\
    (forall c, filter (same_key key c) sorted = filter (same_key key c) acts) /\
    (forall r, Permutation acts r ->
               StronglySorted (in_order key (reverse_of o)) r ->
               (forall c, filter (same_key key c) r = filter (same_key key c) acts) ->
               r = sorted) /\
    (forall l1 a l2, sorted = l1 ++ a :: l2 ->
       (by_rating o = true -> unrated a = true ->
        Forall (fun b =>
                  PrimFloat.leb (key_value key b) (-1)%float = true /\
                  (forall f, rating b = Some (VNum f) -> truthy (VNum f) = true ->
                             PrimFloat.leb f (-1)%float = true))
               (if reverse_of o then l2 else l1)) /\
       (by_rating o = false -> no_amount a = true ->
        Forall (fun b =>
                  PrimFloat.leb PrimFloat.infinity (key_value key b) = true /\
                  (forall p f, price b = Some p -> amount p = Some (VNum f) ->
                               PrimFloat.leb PrimFloat.infinity f = true))
               (if reverse_of o then l1 else l2))).
Proof.
  intros Ho Hkeys key.
  split; [intros a v Ha Hv; unfold rating_key; now rewrite Ha, Hv|].
  split; [intros a v Ha Hv; apply rating_key_unrated; unfold unrated;
          now rewrite Ha, Hv|].
  split; [intros a Ha; apply rating_key_unrated; unfold unrated; now rewrite Ha|].
  split; [intros a p v Ha Hp; unfold price_key; now rewrite Ha, Hp|].
  split; [exact price_key_no_amount|].
  split; [destruct o; reflexivity|].
  destruct (list_sort_spec key (reverse_of o) acts Hkeys) as (sorted & Hs & Hp & Hord & Hst).
  exists sorted. split; [destruct o; try exact Hs; contradiction|].
  split; [exact Hp|]. split; [exact Hord|]. split; [exact Hst|].
  split.
  { intros r Hr1 Hr2 Hr3.
    pose proof (list_sort_unique key (reverse_of o) acts r Hkeys Hr1 Hr2 Hr3) as Hu.
    rewrite Hs in Hu. now injection Hu. }
  intros l1 a l2 E. subst sorted.
  destruct (StronglySorted_split _ _ _ _ Hord) as [H1 H2].
  split.
  - intros Hr Ha.
    assert (Hk : key_value key a = (-1)%float).
    { unfold key_value, key, sort_key. rewrite Hr.
      now rewrite rating_key_unrated. }
    assert (Hnum : forall b, PrimFloat.leb (key_value key b) (-1)%float = true ->
                   forall f, rating b = Some (VNum f) -> truthy (VNum f) = true ->
                             PrimFloat.leb f (-1)%float = true).
    { intros b Hb f Hf Ht. revert Hb.
      unfold key_value, key, sort_key. rewrite Hr. unfold rating_key.
      rewrite Hf, Ht. cbn. auto. }
    unfold in_order in H1, H2. rewrite Hk in H1, H2.
    destruct (reverse_of o); eapply Forall_impl; try eassumption;
      cbv beta; intros b Hb; (split; [exact Hb | exact (Hnum b Hb)]).
  - intros Hr Ha.
    assert (Hk : key_value key a = PrimFloat.infinity).
    { unfold key_value, key, sort_key. rewrite Hr.
      now rewrite price_key_no_amount. }
    assert (Hnum : forall b, PrimFloat.leb PrimFloat.infinity (key_value key b) = true ->
                   forall p f, price b = Some p -> amount p = Some (VNum f) ->
                               PrimFloat.leb PrimFloat.infinity f = true).
    { intros b Hb p f Hp' Hf. revert Hb.
      unfold key_value, key, sort_key. rewrite Hr. unfold price_key.
      rewrite Hp', Hf. cbn. auto. }
    unfold in_order in H1, H2. rewrite Hk in H1, H2.
    destruct (reverse_of o); eapply Forall_impl; try eassumption;
      cbv beta; intros b Hb; (split; [exact Hb | exact (Hnum b Hb)]).
Qed.

(** The select box set to "None" leaves the list as it is. *)
Lemma sort_activities_none acts :
  sort_activities float_of_str SortNone acts = Some acts.
Proof. reflexivity. Qed.

(** C10: in a rating sort an activity whose rating is present but falsy
    (0, -0.0, the empty string, null) gets the key -1 of an activity without
    rating; rated-0 and unrated activities are therefore never reordered
    against each other, in either direction. *)
Theorem falsy_rating_key :
  (forall a v, rating a = Some v -> truthy v = false ->
               rating_key float_of_str a = Some (-1)%float) /\
  (forall a, rating a = None -> rating_key float_of_str a = Some (-1)%float) /\
  truthy (VNum 0%float) = false /\ truthy (VNum (-0)%float) = false /\
  truthy (VStr "") = false /\ truthy VNone = false /\
  (forall o acts,
      by_rating o = true ->
      forallb (usable_key (rating_key float_of_str)) acts = true ->
      exists sorted,
        sort_activities float_of_str o acts = Some sorted /\
        filter unrated sorted = filter unrated acts).
Proof.
  split; [|split].
  - intros a v Ha Hv. apply rating_key_unrated. unfold unrated. now rewrite Ha, Hv.
  - intros a Ha. apply rating_key_unrated. unfold unrated. now rewrite Ha.
  - do 4 (split; [reflexivity|]).
    intros o acts Ho Hkeys.
    destruct (list_sort_spec (rating_key float_of_str) (reverse_of o) acts Hkeys)
      as (sorted & Hs & _ & _ & Hst).
    exists sorted. split.
    + destruct o; try discriminate Ho; exact Hs.
    + assert (Hsub : forall x, unrated x = true ->
                               same_key (rating_key float_of_str) (-1)%float x = true).
      { intros x Hx. unfold same_key, key_value.
        now rewrite (rating_key_unrated x Hx). }
      rewrite <- (filter_within _ _ sorted Hsub), <- (filter_within _ _ acts Hsub).
      now rewrite Hst.
Qed.

End SortKeys.

(** The sample list in descending order of rating. *)
Lemma sort_keys_and_order_witness :
  RatingDown <> SortNone /\
  forallb (usable_key (sort_key no_strings RatingDown)) sample_acts = true /\
  exists sorted,
    sort_activities no_strings RatingDown sample_acts = Some sorted /\
    Permutation sample_acts sorted /\
    StronglySorted (in_order (sort_key no_strings RatingDown) true) sorted.
Proof.
  assert (H1 : RatingDown <> SortNone) by discriminate.
  assert (H2 : forallb (usable_key (sort_key no_strings RatingDown)) sample_acts = true)
    by reflexivity.
  split; [exact H1|]. split; [exact H2|].
  destruct (sort_keys_and_order no_strings RatingDown sample_acts H1 H2)
    as (_ & _ & _ & _ & _ & _ & sorted & Hs & Hp & Hord & _).
  exists sorted. auto.
Defined.

(** C5, as stated, fails: a rating of 0 is keyed -1 like a missing one, not
    0, so in descending order the activity rated 0 stays behind the one
    without rating, which is therefore not last. *)
Lemma rating_zero_sorts_as_unrated :
  sort_activities no_strings RatingDown [unrated_tour; five_star_tour; zero_star_tour]
  = Some [five_star_tour; unrated_tour; zero_star_tour] /\
  rating_key no_strings zero_star_tour = Some (-1)%float /\
  ~ rating_sort_as_claimed no_strings.
Proof.
  assert (H : sort_activities no_strings RatingDown
                [unrated_tour; five_star_tour; zero_star_tour]
              = Some [five_star_tour; unrated_tour; zero_star_tour]) by reflexivity.
  split; [exact H|]. split; [reflexivity|].
  intros C.
  destruct (C [unrated_tour; five_star_tour; zero_star_tour] _ eq_refl H) as [_ C2].
  specialize (C2 [five_star_tour] unrated_tour [zero_star_tour] eq_refl eq_refl).
  inversion C2 as [|? ? Hz _]. discriminate Hz.
Qed.

(** The sample list in the four orders: ties (the two 4.5 ratings, the two
    prices of 12, the missing and the zero rating) keep their input order
    both ways. *)
Example sample_sorts :
  option_map (map name) (sort_activities no_strings RatingDown sample_acts)
  = Some [Some "Castle Tour"; Some "Wine Cellar"; Some "Old Town Walk";
          Some "Harbour View"]%string /\
  option_map (map name) (sort_activities no_strings RatingUp sample_acts)
  = Some [Some "Old Town Walk"; Some "Harbour View"; Some "Castle Tour";
          Some "Wine Cellar"]%string /\
  option_map (map name) (sort_activities no_strings PriceUp sample_acts)
  = Some [Some "Old Town Walk"; Some "Wine Cellar"; Some "Harbour View";
          Some "Castle Tour"]%string /\
  option_map (map name) (sort_activities no_strings PriceDown sample_acts)
  = Some [Some "Castle Tour"; Some "Harbour View"; Some "Old Town Walk";
          Some "Wine Cellar"]%string.
Proof. repeat split. Qed.

(** ** Pagination *)

Lemma ceil_div_bounds n d :
  0 < d -> (ceil_div n d - 1) * d < n <= ceil_div n d * d.
Proof.
  intros Hd. unfold ceil_div.
  pose proof (Z.div_mod (- n) d ltac:(lia)) as Hdm.
  pose proof (Z.mod_pos_bound (- n) d Hd) as Hr.
  nia.
Qed.

(** Up to 1000 activities the ceiling of the double quotient, as the
    source takes it, is the integer ceiling used here. *)
Example ceil_div_float_check : ceil_div_agrees 1001 = true.
Proof. vm_compute. reflexivity. Qed.

Lemma slice_firstn_skipn {A} (l : list A) (i j : Z) :
  0 <= i <= j ->
  slice l i j = firstn (Z.to_nat j - Z.to_nat i) (skipn (Z.to_nat i) l).
Proof.
  intros Hij. unfold slice.
  destruct (i <? 0) eqn:Hi; [apply Z.ltb_lt in Hi; lia|].
  destruct (j <? 0) eqn:Hj; [apply Z.ltb_lt in Hj; lia|].
  set (n := Z.of_nat (List.length l)).
  destruct (Z.le_gt_cases n i) as [Hni|Hni].
  - rewrite !skipn_all2 by lia. now rewrite !firstn_nil.
  - rewrite (Z.min_l i n) by lia.
    destruct (Z.le_gt_cases n j) as [Hnj|Hnj].
    + rewrite !firstn_all2; auto; rewrite length_skipn; lia.
    + rewrite (Z.min_l j n) by lia. f_equal. lia.
Qed.

Lemma firstn_add_skipn {A} (a c : nat) (l : list A) :
  firstn a l ++ firstn c (skipn a l) = firstn (a + c) l.
Proof.
  revert l; induction a as [|a IH]; intros l; [reflexivity|].
  destruct l as [|x l]; simpl.
  - now rewrite firstn_nil.
  - now rewrite IH.
Qed.

(** C6: for a page size of 5, 10 or 20 and any requested page, pagination
    raises nothing; [pages] is max(1, ceil(count / page_size)), i.e. 1 for
    an empty list and otherwise the least number of pages that holds all
    items; the page is the request clamped to 1 .. [pages]; the items are
    those at positions (page-1)*size up to page*size, as far as they exist,
    so none for an empty list. *)
Theorem paginate_spec {A} (acts : list A) (page_size requested : Z) :
  In page_size [5; 10; 20] ->
  exists items page pages,
    paginate acts page_size requested = Some (items, page, pages) /\
    1 <= pages /\
    Z.of_nat (List.length acts) <= pages * page_size /\
    (1 < pages -> (pages - 1) * page_size < Z.of_nat (List.length acts)) /\
    page = (if requested <? 1 then 1
            else if pages <? requested then pages else requested) /\
    (forall i : nat,
        nth_error items i =
        if Z.of_nat i <? page_size
        then nth_error acts (Z.to_nat ((page - 1) * page_size) + i)
        else None) /\
    (acts = [] -> items = []).
Proof.
  intros Hps.
  assert (Hpos : 0 < page_size) by (simpl in Hps; lia).
  unfold paginate. destruct (page_size =? 0) eqn:H0; [apply Z.eqb_eq in H0; lia|].
  set (n := Z.of_nat (List.length acts)).
  set (pages := total_pages acts page_size).
  set (page := Z.max 1 (Z.min requested pages)).
  pose proof (ceil_div_bounds n page_size Hpos) as Hc.
  assert (Hpages : pages = Z.max 1 (ceil_div n page_size)) by reflexivity.
  assert (Hpage : 1 <= page <= pages) by lia.
  exists (slice acts ((page - 1) * page_size) (page * page_size)), page, pages.
  split; [reflexivity|]. split; [lia|]. split; [nia|]. split; [nia|]. split.
  { destruct (requested <? 1) eqn:H1; [apply Z.ltb_lt in H1; lia|].
    apply Z.ltb_ge in H1.
    destruct (pages <? requested) eqn:H2;
      [apply Z.ltb_lt in H2 | apply Z.ltb_ge in H2]; lia. }
  assert (Hsl : slice acts ((page - 1) * page_size) (page * page_size)
                = firstn (Z.to_nat page_size)
                         (skipn (Z.to_nat ((page - 1) * page_size)) acts)).
  { rewrite slice_firstn_skipn by nia. f_equal. nia. }
  rewrite Hsl. split.
  - intros i. rewrite nth_error_firstn, nth_error_skipn.
    destruct (Nat.ltb_spec i (Z.to_nat page_size));
      destruct (Z.ltb_spec (Z.of_nat i) page_size); auto; lia.
  - intros ->. rewrite skipn_nil. apply firstn_nil.
Qed.

(** Twelve items, five per page, page 7 requested. *)
Lemma paginate_spec_witness :
  In 5 [5; 10; 20] /\
  exists items page pages,
    paginate (seq 0 12) 5 7 = Some (items, page, pages) /\
    1 <= pages /\
    Z.of_nat (List.length (seq 0 12)) <= pages * 5 /\
    (1 < pages -> (pages - 1) * 5 < Z.of_nat (List.length (seq 0 12))) /\
    page = (if 7 <? 1 then 1 else if pages <? 7 then pages else 7) /\
    (forall i : nat,
        nth_error items i =
        if Z.of_nat i <? 5
        then nth_error (seq 0 12) (Z.to_nat ((page - 1) * 5) + i)
        else None) /\
    (seq 0 12 = [] -> items = []).
Proof.
  split; [simpl; auto|].
  apply (paginate_spec (seq 0 12) 5 7). simpl; auto.
Defined.

(** The spec's scenario: 12 activities at 5 per page make 3 pages; page 1
    has 5 items and page 3 has 2; requests 0 and 7 are clamped. *)
Example twelve_activities :
  paginate (seq 0 12) 5 1 = Some ([0; 1; 2; 3; 4]%nat, 1, 3) /\
  paginate (seq 0 12) 5 3 = Some ([10; 11]%nat, 3, 3) /\
  paginate (seq 0 12) 5 0 = Some ([0; 1; 2; 3; 4]%nat, 1, 3) /\
  paginate (seq 0 12) 5 7 = Some ([10; 11]%nat, 3, 3) /\
  paginate (@nil nat) 5 (-2) = Some ([], 1, 1).
Proof. repeat split. Qed.

Lemma page_items_slice {A} (acts : list A) (ps : Z) (p : nat) :
  0 < ps -> (1 <= p)%nat -> Z.of_nat p <= total_pages acts ps ->
  page_items acts ps (Z.of_nat p)
  = firstn (Z.to_nat ps) (skipn ((p - 1) * Z.to_nat ps) acts).
Proof.
  intros Hps Hp1 Hp2. unfold page_items, paginate.
  destruct (ps =? 0) eqn:H0; [apply Z.eqb_eq in H0; lia|].
  rewrite (Z.min_l (Z.of_nat p)) by lia. rewrite Z.max_r by lia.
  rewrite slice_firstn_skipn by nia. f_equal; [nia | f_equal; nia].
Qed.

Lemma concat_pages_firstn {A} (acts : list A) (ps : Z) (k : nat) :
  0 < ps -> Z.of_nat k <= total_pages acts ps ->
  List.concat (map (fun p => page_items acts ps (Z.of_nat p)) (seq 1 k))
  = firstn (k * Z.to_nat ps) acts.
Proof.
  intros Hps. induction k as [|k IH]; intros Hk; [reflexivity|].
  rewrite seq_S, map_app, concat_app, IH by lia.
  cbn [map List.concat]. change (1 + k)%nat with (S k).
  rewrite page_items_slice by lia. rewrite app_nil_r.
  replace (S k - 1)%nat with k by lia.
  rewrite firstn_add_skipn. f_equal. lia.
Qed.

(** C7: for every positive page size the pages 1 .. [pages], one after
    the other, are the list itself: nothing is left out and nothing shows
    twice. *)
Theorem all_pages_cover {A} (acts : list A) (page_size : Z) :
  0 < page_size -> List.concat (all_pages acts page_size) = acts.
Proof.
  intros Hps. unfold all_pages.
  pose proof (ceil_div_bounds (Z.of_nat (List.length acts)) page_size Hps) as Hc.
  assert (Hpages : 1 <= total_pages acts page_size /\
                   Z.of_nat (List.length acts) <= total_pages acts page_size * page_size)
    by (unfold total_pages; nia).
  rewrite concat_pages_firstn by lia.
  apply firstn_all2. nia.
Qed.

(** Twelve items in pages of five. *)
Lemma all_pages_cover_witness :
  0 < 5 /\ List.concat (all_pages (seq 0 12) 5) = seq 0 12.
Proof.
  split; [lia|]. apply (all_pages_cover (seq 0 12) 5). lia.
Defined.

(** ** The page stored in the session *)

Section Session.

Variable float_of_str : string -> option float.

Lemma page_apply_pending s : page (apply_pending s) = page s.
Proof. unfold apply_pending. now destruct (cat_filter_new s). Qed.

Lemma page_category_widgets w s : page (category_widgets w s) = page s.
Proof.
  unfold category_widgets.
  repeat match goal with
         | |- context [if ?b then _ else _] => destruct b
         end; reflexivity.
Qed.

Lemma use_preset_category_widgets w s :
  preset_button w = false -> use_preset s = false ->
  use_preset (category_widgets w s) = false.
Proof.
  intros Hb Hs. unfold category_widgets. rewrite Hb. simpl. now rewrite Hs.
Qed.

Lemma total_pages_pos {A} (acts : list A) ps : 1 <= total_pages acts ps.
Proof. unfold total_pages. lia. Qed.

(** What one run does to the page: the search button sets it to 1; a run
    that reaches the pagination clamps it to the pages there are; nothing
    else touches it. *)
Lemma script_page w s s' o :
  script float_of_str w s = (s', o) ->
  let p0 := if city_selected w && find_button w then 1 else page s in
  match o with
  | Rendered _ pages => 1 <= pages /\ page s' = Z.max 1 (Z.min p0 pages)
  | _ => page s' = p0
  end.
Proof.
  unfold script. destruct (city_selected w); simpl.
  2: { intros H; injection H as <- <-. apply page_apply_pending. }
  set (s0 := category_widgets w (apply_pending s)).
  assert (Hp0 : page s0 = page s)
    by (unfold s0; now rewrite page_category_widgets, page_apply_pending).
  set (s1 := search_trigger w s0).
  assert (Hp1 : page s1 = if find_button w then 1 else page s)
    by (unfold s1, search_trigger; destruct (find_button w); auto).
  clearbody s1. clear s0 Hp0.
  destruct (have_results s1); simpl; [|intros H; injection H as <- <-; exact Hp1].
  destruct (api_result w) as [acts_raw|]; [|intros H; injection H as <- <-; exact Hp1].
  destruct (weather_verdict (weather_rows w)) as [[rain_flag avg_temp]|];
    [|intros H; injection H as <- <-; exact Hp1].
  destruct (use_preset s1); [intros H; injection H as <- <-; exact Hp1|].
  unfold render.
  destruct (kw_list (active_cats s1)) as [kws|];
    [|intros H; injection H as <- <-; exact Hp1].
  destruct (sort_activities float_of_str (sort_choice w) (acts_filtered kws acts_raw))
    as [acts|]; [|intros H; injection H as <- <-; exact Hp1].
  unfold paginate. destruct (page_size w =? 0);
    [intros H; injection H as <- <-; exact Hp1|].
  intros H; injection H as <- <-. simpl. rewrite Hp1.
  split; [apply total_pages_pos | reflexivity].
Qed.

(** The run that applies the preset leaves the flag down, so the rerun
    cannot ask for another one. *)
Lemma script_rerun_flag w s s1 :
  script float_of_str w s = (s1, Rerun) -> use_preset s1 = false.
Proof.
  unfold script. destruct (negb (city_selected w)); [discriminate|].
  destruct (negb (have_results _)); [discriminate|].
  destruct (api_result w); [|discriminate].
  destruct (weather_verdict _) as [[rain_flag avg_temp]|]; [|discriminate].
  destruct (use_preset _).
  - intros H; injection H as <-. reflexivity.
  - unfold render.
    repeat match goal with
           | |- context [match ?x with _ => _ end] => destruct x
           end; discriminate.
Qed.

Lemma script_no_second_rerun w s s' o :
  use_preset s = false ->
  script float_of_str (released w) s = (s', o) -> o <> Rerun.
Proof.
  intros Hs. unfold script. simpl.
  destruct (negb (city_selected w)); [intros H; injection H as <- <-; discriminate|].
  assert (Hu : use_preset (search_trigger (released w)
                             (category_widgets (released w) (apply_pending s))) = false).
  { unfold search_trigger. simpl. apply use_preset_category_widgets; [reflexivity|].
    unfold apply_pending. destruct (cat_filter_new s); exact Hs. }
  revert Hu. generalize (search_trigger (released w)
                           (category_widgets (released w) (apply_pending s))).
  intros s1 Hu.
  destruct (negb (have_results s1)); [intros H; injection H as <- <-; discriminate|].
  destruct (api_result w); [|intros H; injection H as <- <-; discriminate].
  destruct (weather_verdict _) as [[rain_flag avg_temp]|];
    [|intros H; injection H as <- <-; discriminate].
  rewrite Hu. unfold render.
  repeat match goal with
         | |- context [match ?x with _ => _ end] => destruct x
         end; intros H; injection H as <- <-; discriminate.
Qed.

Lemma interaction_rerun w s s1 :
  script float_of_str w s = (s1, Rerun) ->
  interaction float_of_str w s = script float_of_str (released w) s1.
Proof. intros H. unfold interaction. now rewrite H. Qed.

Lemma interaction_search_page w s :
  city_selected w = true -> find_button w = true ->
  page (fst (interaction float_of_str w s)) = 1.
Proof.
  intros Hc Hf. unfold interaction.
  destruct (script float_of_str w s) as [s1 o] eqn:H1.
  pose proof (script_page w s s1 o H1) as P1. rewrite Hc, Hf in P1. simpl in P1.
  destruct o; simpl; try exact P1; try lia.
  destruct (script float_of_str (released w) s1) as [s2 o2] eqn:H2.
  pose proof (script_page (released w) s1 s2 o2 H2) as P2. simpl in P2.
  rewrite andb_false_r in P2. destruct o2; simpl; lia.
Qed.

End Session.

(** C8, as stated, fails for the preset: the press of the preset button on
    page 2 is applied (the warm set is selected after the rerun) and the
    session is still on page 2. *)
Lemma preset_keeps_page :
  script no_strings preset_click browsing
  = ({| page := 2; have_results := true; active_cats := []; use_preset := false;
        cat_filter := Some []; cat_filter_new := Some ["Wine"; "Historical"]%string |},
     Rerun) /\
  active_cats (fst (interaction no_strings preset_click browsing))
  = ["Wine"; "Historical"]%string /\
  page (fst (interaction no_strings preset_click browsing)) = 2 /\
  ~ preset_resets_page.
Proof.
  assert (H1 : script no_strings preset_click browsing
               = ({| page := 2; have_results := true; active_cats := [];
                     use_preset := false; cat_filter := Some [];
                     cat_filter_new := Some ["Wine"; "Historical"]%string |}, Rerun))
    by reflexivity.
  assert (H2 : page (fst (interaction no_strings preset_click browsing)) = 2)
    by reflexivity.
  split; [exact H1|]. split; [reflexivity|]. split; [exact H2|].
  intros H. specialize (H no_strings preset_click browsing _ H1).
  rewrite H2 in H. discriminate H.
Qed.

(** C8, amended: a search submission resets the page to 1, whatever else
    the run does.  A preset application alone does not: the run that
    applies it (stores the preset for the category widget and asks for a
    rerun) leaves the page as it was, and the rerun, which cannot ask for
    another, only clamps that page to the pages of the newly filtered list. *)
Theorem page_after_search_and_preset
  (float_of_str : string -> option float) (w : run_input) (s : session) :
  (city_selected w = true -> find_button w = true ->
   page (fst (interaction float_of_str w s)) = 1) /\
  (find_button w = false ->
   forall s1, script float_of_str w s = (s1, Rerun) ->
     page s1 = page s /\
     (exists rain t, cat_filter_new s1 = Some (preset_categories rain t)) /\
     forall s2 o, interaction float_of_str w s = (s2, o) ->
       o <> Rerun /\
       match o with
       | Rendered _ pages => page s2 = Z.max 1 (Z.min (page s) pages)
       | _ => page s2 = page s
       end).
Proof.
  split; [apply interaction_search_page|].
  intros Hf s1 H1.
  pose proof (script_page float_of_str w s s1 Rerun H1) as P1.
  rewrite Hf, andb_false_r in P1. simpl in P1.
  split; [exact P1|]. split.
  - revert H1. unfold script.
    destruct (negb (city_selected w)); [discriminate|].
    destruct (negb (have_results _)); [discriminate|].
    destruct (api_result w); [|discriminate].
    destruct (weather_verdict _) as [[rain_flag avg_temp]|]; [|discriminate].
    destruct (use_preset _).
    + intros H; injection H as <-. exists rain_flag, avg_temp. reflexivity.
    + unfold render.
      repeat match goal with
             | |- context [match ?x with _ => _ end] => destruct x
             end; discriminate.
  - intros s2 o H2. rewrite (interaction_rerun float_of_str w s s1 H1) in H2.
    split.
    + exact (script_no_second_rerun float_of_str w s1 s2 o
               (script_rerun_flag float_of_str w s s1 H1) H2).
    + pose proof (script_page float_of_str (released w) s1 s2 o H2) as P2.
      simpl in P2. rewrite andb_false_r, P1 in P2.
      destruct o; try exact P2. apply P2.
Qed.

(** Pressing "Find Activities" in the same session does lead to page 1. *)
Example find_click_scenario :
  interaction no_strings
    {| city_selected := true; page_size := 5; sort_choice := SortNone;
       preset_button := false; find_button := true;
       api_result := Some castles; weather_rows := [] |} browsing
  = ({| page := 1; have_results := true; active_cats := []; use_preset := false;
        cat_filter := Some []; cat_filter_new := None |},
     Rendered (firstn 5 castles) 3).
Proof. reflexivity. Qed.

(** ** Categories, keywords and the filter, continued *)

Lemma dict_get_In c kws : dict_get KEYWORDS c = Some kws -> In c CATEGORY_LIST.
Proof.
  intros H. unfold KEYWORDS, dict_get in H. unfold CATEGORY_LIST.
  repeat match type of H with
         | (if String.eqb c ?k then _ else _) = _ =>
             destruct (String.eqb_spec c k) as [->|_]; [simpl; tauto|]
         end.
  discriminate H.
Qed.

Lemma In_dict_get c :
  In c CATEGORY_LIST -> exists kws, dict_get KEYWORDS c = Some kws /\ kws <> [].
Proof.
  intros H. unfold CATEGORY_LIST in H. cbn [In] in H.
  repeat (destruct H as [<-|H]; [eexists; split; [reflexivity | discriminate]|]).
  contradiction.
Qed.

Lemma kw_list_some_offered cats kws : kw_list cats = Some kws -> offered cats.
Proof.
  revert kws. induction cats as [|c cats IH]; intros kws H; [constructor|].
  cbn [kw_list] in H.
  destruct (dict_get KEYWORDS c) as [k|] eqn:Hk; [|discriminate H].
  destruct (kw_list cats) as [rest|] eqn:Hr; [|discriminate H].
  constructor; [exact (dict_get_In c k Hk) | exact (IH rest eq_refl)].
Qed.

Lemma kw_list_offered cats :
  offered cats -> exists kws, kw_list cats = Some kws /\ (kws = [] <-> cats = []).
Proof.
  induction 1 as [|c cats Hc Hcats IH].
  - exists []. split; [reflexivity | tauto].
  - destruct (In_dict_get c Hc) as (kws & Hk & Hne).
    destruct IH as (rest & Hr & _).
    exists (kws ++ rest). cbn [kw_list]. rewrite Hk, Hr.
    split; [reflexivity|]. split; [|discriminate].
    intros E. apply app_eq_nil in E. destruct E as [E _]. contradiction.
Qed.

(** X1: the keyword lookup succeeds exactly on selections made of offered
    categories, and the keyword list it returns is empty only for the
    empty selection. *)
Theorem kw_list_defined (cats : list string) :
  (offered cats ->
   exists kws, kw_list cats = Some kws /\ (kws = [] <-> cats = [])) /\
  (~ offered cats -> kw_list cats = None).
Proof.
  split; [apply kw_list_offered|].
  intros H. destruct (kw_list cats) as [kws|] eqn:E; [|reflexivity].
  contradiction H. exact (kw_list_some_offered cats kws E).
Qed.

Lemma preset_categories_offered rain t : offered (preset_categories rain t).
Proof.
  unfold preset_categories, offered, rain_set, cold_set, warm_set, CATEGORY_LIST.
  destruct rain; [|destruct (PrimFloat.ltb t 15)];
    repeat (apply Forall_cons; [cbn [In]; auto 10|]); apply Forall_nil.
Qed.

(** X2: whatever the weather, the preset selects only categories that the
    multiselect offers, and the keyword lookup for it succeeds with at
    least one keyword: a preset never switches the filter off. *)
Theorem preset_categories_usable (rain : bool) (t : float) :
  offered (preset_categories rain t) /\
  exists kws, kw_list (preset_categories rain t) = Some kws /\ kws <> [].
Proof.
  split; [apply preset_categories_offered|].
  unfold preset_categories.
  destruct rain; [|destruct (PrimFloat.ltb t 15)];
    (eexists; split; [reflexivity | discriminate]).
Qed.

Lemma filter_idem {B} (f : B -> bool) (l : list B) : filter f (filter f l) = filter f l.
Proof.
  induction l as [|x l IH]; simpl; [reflexivity|].
  destruct (f x) eqn:E; simpl; rewrite ?E, IH; reflexivity.
Qed.

(** X3: filtering is idempotent, and with no keyword it returns the list
    unchanged. *)
Theorem acts_filtered_idempotent (kws : list string) (acts : list activity) :
  acts_filtered kws (acts_filtered kws acts) = acts_filtered kws acts /\
  acts_filtered [] acts = acts.
Proof.
  split; [apply filter_idem|].
  unfold acts_filtered. induction acts as [|a l IH]; simpl; [reflexivity|].
  now rewrite IH.
Qed.

Lemma lower_char_idem c : lower_char (lower_char c) = lower_char c.
Proof. destruct c as [[] [] [] [] [] [] [] []]; reflexivity. Qed.

Lemma lower_idem s : lower (lower s) = lower s.
Proof.
  induction s as [|c s IH]; simpl; [reflexivity|].
  now rewrite lower_char_idem, IH.
Qed.

Lemma lower_app s1 s2 : lower (s1 ++ s2) = (lower s1 ++ lower s2)%string.
Proof. induction s1 as [|c s1 IH]; simpl; [reflexivity|]. now rewrite IH. Qed.

Lemma length_lower s : String.length (lower s) = String.length s.
Proof. induction s as [|c s IH]; simpl; [reflexivity|]. now rewrite IH. Qed.

Lemma string_app_inj (a1 a2 b1 b2 : string) :
  String.length a1 = String.length a2 ->
  (a1 ++ b1 = a2 ++ b2)%string -> a1 = a2 /\ b1 = b2.
Proof.
  revert a2. induction a1 as [|c a1 IH]; intros [|d a2] Hl H; simpl in *;
    try discriminate; [auto|].
  injection H as -> H. injection Hl as Hl.
  destruct (IH a2 Hl H) as [-> ->]. auto.
Qed.

Lemma substring_lower kw s : substring_of kw (lower s) -> lower kw = kw.
Proof.
  intros (pre & post & H).
  assert (H2 : (lower pre ++ lower kw ++ lower post = pre ++ kw ++ post)%string).
  { rewrite <- !lower_app, <- H. apply lower_idem. }
  apply string_app_inj in H2; [|apply length_lower]. destruct H2 as [_ H2].
  apply string_app_inj in H2; [|apply length_lower]. tauto.
Qed.

(** X4: the filter ignores the case of the activity's text: two activities
    whose names and descriptions differ in case only pass or fail
    together. *)
Theorem passes_ignores_case (kws : list string) (a b : activity) :
  lower (get_default (name a) ""%string) = lower (get_default (name b) ""%string) ->
  lower (get_default (shortDescription a) ""%string)
  = lower (get_default (shortDescription b) ""%string) ->
  passes kws a = passes kws b.
Proof.
  intros Hn Hd. unfold passes. f_equal.
  assert (E : search_text a = search_text b)
    by (unfold search_text; rewrite !lower_app, Hn, Hd; reflexivity).
  now rewrite E.
Qed.

(** "Castle Tour" and "CASTLE TOUR". *)
Lemma passes_ignores_case_witness :
  passes ["castle"%string] (act "Castle Tour" None None)
  = passes ["castle"%string] (act "CASTLE TOUR" None None).
Proof.
  apply (passes_ignores_case ["castle"%string]
           (act "Castle Tour" None None) (act "CASTLE TOUR" None None));
    reflexivity.
Defined.

(** X5: keywords are compared as written, against lower-cased text: a
    keyword with an upper-case letter matches no activity at all.  The
    keywords of the table are all lower case, so none of them is lost. *)
Theorem keywords_match_as_written :
  (forall kw a, lower kw <> kw -> contains kw (search_text a) = false) /\
  (forall cats kws, kw_list cats = Some kws -> Forall (fun kw => lower kw = kw) kws).
Proof.
  split.
  - intros kw a Hkw. destruct (contains kw (search_text a)) eqn:E; [|reflexivity].
    apply contains_iff in E. unfold search_text in E.
    apply substring_lower in E. contradiction.
  - induction cats as [|c cats IH]; intros kws H; cbn [kw_list] in H.
    + injection H as <-. constructor.
    + destruct (dict_get KEYWORDS c) as [k|] eqn:Hk; [|discriminate H].
      destruct (kw_list cats) as [rest|] eqn:Hr; [|discriminate H].
      injection H as <-. apply Forall_app. split; [|exact (IH rest eq_refl)].
      unfold KEYWORDS, dict_get in Hk.
      repeat match type of Hk with
             | (if String.eqb c ?x then _ else _) = _ =>
                 destruct (String.eqb c x);
                 [injection Hk as <-; repeat constructor|]
             end.
      discriminate Hk.
Qed.

(** ** Sorting, continued *)

Lemma Permutation_filter_both {B} (f : B -> bool) (l l' : list B) :
  Permutation l l' -> Permutation (filter f l) (filter f l').
Proof.
  induction 1 as [|x l l' _ IH|x y l|l l' l'' _ IH1 _ IH2]; simpl.
  - constructor.
  - destruct (f x); [now constructor | exact IH].
  - destruct (f x), (f y); try reflexivity. apply perm_swap.
  - now transitivity (filter f l').
Qed.

Lemma StronglySorted_filter {B} (R : B -> B -> Prop) (f : B -> bool) l :
  StronglySorted R l -> StronglySorted R (filter f l).
Proof.
  induction 1 as [|a l Hs IH Ha]; simpl; [constructor|].
  destruct (f a); [|exact IH]. constructor; [exact IH|].
  rewrite Forall_forall in *. intros x Hx. apply filter_In in Hx. now apply Ha.
Qed.

Lemma filter_swap {B} (f g : B -> bool) (l : list B) :
  filter f (filter g l) = filter g (filter f l).
Proof.
  induction l as [|x l IH]; simpl; [reflexivity|].
  destruct (g x) eqn:Eg, (f x) eqn:Ef; simpl; rewrite ?Eg, ?Ef, IH; reflexivity.
Qed.

Lemma forallb_Permutation {B} (f : B -> bool) (l l' : list B) :
  Permutation l l' -> forallb f l = true -> forallb f l' = true.
Proof.
  intros Hp. rewrite !forallb_forall. intros H x Hx.
  apply H. eapply Permutation_in; [symmetry; exact Hp | exact Hx].
Qed.

Lemma forallb_filter {B} (f g : B -> bool) (l : list B) :
  forallb f l = true -> forallb f (filter g l) = true.
Proof.
  rewrite !forallb_forall. intros H x Hx. apply filter_In in Hx. now apply H.
Qed.


Section SortExtras.

Variable float_of_str : string -> option float.

(** X6: sorting is idempotent: a list that came out of a sort (with keys
    that are numbers) is returned unchanged when sorted again in the same
    order. *)
Theorem sort_activities_idempotent (o : sort_order) (acts sorted : list activity) :
  forallb (usable_key (sort_key float_of_str o)) acts = true ->
  sort_activities float_of_str o acts = Some sorted ->
  sort_activities float_of_str o sorted = Some sorted.
Proof.
  intros Hkeys H.
  destruct (list_sort_spec (sort_key float_of_str o) (reverse_of o) acts Hkeys)
    as (r & Hr & Hp & Hord & Hst).
  destruct o; try (injection H as <-; reflexivity);
    unfold sort_activities in *; rewrite Hr in H; injection H as <-;
    (apply list_sort_unique;
     [exact (forallb_Permutation _ _ _ Hp Hkeys) | reflexivity | exact Hord | reflexivity]).
Qed.

(** X7: filtering and sorting commute: sorting the filtered list gives the
    filtered sorted list, so the order among the activities that pass does
    not depend on the ones that are filtered out. *)
Theorem filter_sort_commute (o : sort_order) (kws : list string) (acts : list activity) :
  forallb (usable_key (sort_key float_of_str o)) acts = true ->
  exists sorted,
    sort_activities float_of_str o acts = Some sorted /\
    sort_activities float_of_str o (acts_filtered kws acts)
    = Some (acts_filtered kws sorted).
Proof.
  intros Hkeys.
  destruct (list_sort_spec (sort_key float_of_str o) (reverse_of o) acts Hkeys)
    as (r & Hr & Hp & Hord & Hst).
  assert (Hu : list_sort (sort_key float_of_str o) (reverse_of o) (acts_filtered kws acts)
               = Some (acts_filtered kws r)).
  { unfold acts_filtered. apply list_sort_unique.
    - now apply forallb_filter.
    - now apply Permutation_filter_both.
    - now apply StronglySorted_filter.
    - intros c. now rewrite filter_swap, Hst, filter_swap. }
  destruct o; [exists acts; split; reflexivity | | | |];
    exists r; split; assumption.
Qed.


End SortExtras.

(** The sample list, sorted and filtered for "castle" or "wine". *)
Lemma sort_activities_idempotent_witness :
  forallb (usable_key (sort_key no_strings RatingDown)) sample_acts = true /\
  (sort_activities no_strings RatingDown sample_acts
   = Some [act "Castle Tour" (Some (VNum 4.5%float)) None;
           act "Wine Cellar" (Some (VNum 4.5%float)) (Some (VNum 12%float));
           act "Old Town Walk" None (Some (VNum 12%float));
           act "Harbour View" (Some (VNum 0%float)) (Some (VNum 30%float))]) /\
  sort_activities no_strings RatingDown
    [act "Castle Tour" (Some (VNum 4.5%float)) None;
     act "Wine Cellar" (Some (VNum 4.5%float)) (Some (VNum 12%float));
     act "Old Town Walk" None (Some (VNum 12%float));
     act "Harbour View" (Some (VNum 0%float)) (Some (VNum 30%float))]
  = Some [act "Castle Tour" (Some (VNum 4.5%float)) None;
          act "Wine Cellar" (Some (VNum 4.5%float)) (Some (VNum 12%float));
          act "Old Town Walk" None (Some (VNum 12%float));
          act "Harbour View" (Some (VNum 0%float)) (Some (VNum 30%float))].
Proof.
  assert (H1 : forallb (usable_key (sort_key no_strings RatingDown)) sample_acts = true)
    by reflexivity.
  split; [exact H1|]. split; [reflexivity|].
  apply (sort_activities_idempotent no_strings RatingDown sample_acts _ H1).
  reflexivity.
Defined.

Lemma filter_sort_commute_witness :
  forallb (usable_key (sort_key no_strings PriceUp)) sample_acts = true /\
  exists sorted,
    sort_activities no_strings PriceUp sample_acts = Some sorted /\
    sort_activities no_strings PriceUp
      (acts_filtered ["castle"; "wine"]%string sample_acts)
    = Some (acts_filtered ["castle"; "wine"]%string sorted).
Proof.
  assert (H1 : forallb (usable_key (sort_key no_strings PriceUp)) sample_acts = true)
    by reflexivity.
  split; [exact H1|].
  apply (filter_sort_commute no_strings PriceUp ["castle"; "wine"]%string sample_acts H1).
Defined.

(** ** Pagination, continued *)

(** X9: how many items a page holds: every page before the last is full,
    the last holds what is left, which is at least one item unless the list
    is empty. *)
Theorem page_items_length {A} (acts : list A) (page_size p : Z) :
  0 < page_size -> 1 <= p <= total_pages acts page_size ->
  let n := Z.of_nat (List.length acts) in
  let shown := Z.of_nat (List.length (page_items acts page_size p)) in
  shown = Z.min page_size (n - (p - 1) * page_size) /\
  (p < total_pages acts page_size -> shown = page_size) /\
  (acts <> [] -> 1 <= shown).
Proof.
  intros Hps Hp n shown.
  pose proof (ceil_div_bounds n page_size Hps) as Hc.
  assert (Hpages : total_pages acts page_size = Z.max 1 (ceil_div n page_size))
    by reflexivity.
  assert (Hshown : shown = Z.min page_size (n - (p - 1) * page_size)).
  { subst shown. replace p with (Z.of_nat (Z.to_nat p)) at 1 by lia.
    rewrite page_items_slice by lia.
    rewrite length_firstn, length_skipn. fold n. nia. }
  split; [exact Hshown|]. split.
  - intros Hlt. nia.
  - intros Hne. assert (0 < n).
    { subst n. destruct acts; [contradiction|]. simpl List.length. lia. }
    nia.
Qed.

(** Twelve items in pages of five: the third page holds two. *)
Lemma page_items_length_witness :
  0 < 5 /\ 1 <= 3 <= total_pages (seq 0 12) 5 /\
  Z.of_nat (List.length (page_items (seq 0 12) 5 3))
  = Z.min 5 (Z.of_nat (List.length (seq 0 12)) - (3 - 1) * 5).
Proof.
  assert (H1 : 0 < 5) by lia.
  assert (H2 : 1 <= 3 <= total_pages (seq 0 12) 5) by (vm_compute; split; discriminate).
  split; [exact H1|]. split; [exact H2|].
  exact (proj1 (page_items_length (seq 0 12) 5 3 H1 H2)).
Defined.

(** ** The weather lookup *)

Section LookbackFacts.

Variable archive : Z -> weather_response.
Variable year_of : Z -> Z.

Lemma lookback_rows_spec ref ns rows :
  lookback_rows archive year_of ref ns = Some rows ->
  Forall2 (row_from archive year_of ref) (filter (answered archive ref) ns) rows.
Proof.
  revert rows. induction ns as [|n ns IH]; intros rows H; cbn [lookback_rows] in H.
  - injection H as <-. constructor.
  - destruct (lookback_row archive year_of ref n) as [r|] eqn:Hr; [|discriminate H].
    destruct (lookback_rows archive year_of ref ns) as [rest|]; [|discriminate H].
    injection H as <-. specialize (IH rest eq_refl).
    unfold lookback_row in Hr. cbn [filter]. unfold answered at 1.
    destruct (has_data (fetch_weather_once (archive (ref - 365 * n)))); [|].
    + destruct (first_value (temperature_2m_max _)) as [hi|] eqn:E1; [|discriminate Hr].
      destruct (first_value (temperature_2m_min _)) as [lo|] eqn:E2; [|discriminate Hr].
      destruct (first_value (precipitation_sum _)) as [mm|] eqn:E3; [|discriminate Hr].
      injection Hr as <-. constructor; [|exact IH].
      unfold row_from. cbn [Year MaxC MinC PrecipMm]. rewrite E1, E2, E3. auto.
    + injection Hr as <-. exact IH.
Qed.


(** X10: the rows of the weather table: at most three, one for each of the
    years 1, 2, 3 back for which the archive answered, most recent first,
    each with the year of its day and the first value of each series. *)
Theorem last_three_years_weather_rows (ref : Z) (rows : list weather_row) :
  last_three_years_weather archive year_of ref = Some rows ->
  (List.length rows <= 3)%nat /\
  Forall2 (row_from archive year_of ref) (filter (answered archive ref) [1; 2; 3]) rows.
Proof.
  intros H. apply lookback_rows_spec in H. split; [|exact H].
  rewrite <- (Forall2_length H).
  etransitivity; [apply filter_length_le | simpl; lia].
Qed.


End LookbackFacts.



(** The sample archive answers for one and three years back. *)
Lemma last_three_years_weather_rows_witness :
  last_three_years_weather sample_archive (fun d => 2020 + d / 365) 1000
  = Some [ {| Year := 2021; MaxC := 21; MinC := 11; PrecipMm := 0 |};
           {| Year := 2019; MaxC := 16; MinC := 9; PrecipMm := 0.5 |} ]%float /\
  (List.length [ {| Year := 2021; MaxC := 21; MinC := 11; PrecipMm := 0 |};
                 {| Year := 2019; MaxC := 16; MinC := 9; PrecipMm := 0.5 |} ]%float
   <= 3)%nat.
Proof.
  assert (H : last_three_years_weather sample_archive (fun d => 2020 + d / 365) 1000
              = Some [ {| Year := 2021; MaxC := 21; MinC := 11; PrecipMm := 0 |};
                       {| Year := 2019; MaxC := 16; MinC := 9; PrecipMm := 0.5 |} ]%float)
    by reflexivity.
  split; [exact H|].
  exact (proj1 (last_three_years_weather_rows sample_archive _ 1000 _ H)).
Defined.


(** A 200 answer whose "daily" object has other keys only is an answer:
    the lookup raises on its missing series.  An archive that never
    answers gives no rows. *)
Example lookup_edge_cases :
  last_three_years_weather
    (fun _ => {| weather_status := 200;
                 weather_daily := Some {| other_keys := true; time := None;
                                          temperature_2m_max := None;
                                          temperature_2m_min := None;
                                          precipitation_sum := None |} |})
    (fun d => d) 1000 = None /\
  last_three_years_weather
    (fun _ => {| weather_status := 500; weather_daily := None |})
    (fun d => d) 1000 = Some [].
Proof. split; reflexivity. Qed.

(** ** The city search *)

Lemma city_hits_spec (items : list city_item) :
  Forall2 suggestion_of (filter located items) (map with_label (city_hits items)).
Proof.
  induction items as [|item items IH]; cbn [city_hits filter map]; [constructor|].
  unfold located at 1.
  destruct (geoCode item) as [g|] eqn:Hg; cbn [get_default latitude longitude];
    [|exact IH].
  destruct (latitude g) as [la|] eqn:Hla; [|exact IH].
  destruct (longitude g) as [lo|] eqn:Hlo; [|exact IH].
  cbn [map]. constructor; [|exact IH].
  unfold suggestion_of, with_label; cbn [hit_name iata lat lon label].
  split; [exists g; auto|]. split; [reflexivity|]. split; [reflexivity|].
  destruct (get_default (iataCode item) ""%string); reflexivity.
Qed.

(** X13: the suggestions of the search box.  A response other than 200
    gives none.  Otherwise there is one suggestion for each item that has
    both coordinates, in the order of the response and with those
    coordinates; items lacking one are left out; every suggestion carries a
    label. *)
Theorem city_searchbox_source_spec (r : city_response) :
  (city_status r <> 200 -> city_searchbox_source r = []) /\
  (city_status r = 200 ->
   Forall2 suggestion_of (filter located (get_default (city_data r) []))
           (city_searchbox_source r)).
Proof.
  unfold city_searchbox_source, _amadeus_city_query. split; intros H.
  - destruct (Z.eqb_spec (city_status r) 200); [contradiction | reflexivity].
  - rewrite H. cbn [Z.eqb Pos.eqb negb]. apply city_hits_spec.
Qed.

(** Rome is suggested as "Rome (ROM)", the item without a name as
    "Unknown", and Romeo, which has no coordinates, not at all. *)
Example rome_suggestions :
  map label (city_searchbox_source rome_response)
  = [Some "Rome (ROM)"; Some "Unknown"]%string.
Proof. reflexivity. Qed.

(** ** A rendered page and what follows it *)

Lemma set_page_same s : set_page (page s) s = s.
Proof. now destruct s. Qed.

Lemma set_cats_same s :
  cat_filter s = Some (active_cats s) -> set_cats (active_cats s) s = s.
Proof. destruct s; simpl. intros ->. reflexivity. Qed.

Lemma page_items_in_range {A} (acts : list A) (ps p : Z) :
  ps <> 0 -> 1 <= p <= total_pages acts ps ->
  page_items acts ps p = slice acts ((p - 1) * ps) (p * ps).
Proof.
  intros Hps Hp. unfold page_items, paginate.
  destruct (Z.eqb_spec ps 0); [contradiction|].
  rewrite (Z.min_l p) by lia. rewrite Z.max_r by lia. reflexivity.
Qed.

Section Rendered.

Variable float_of_str : string -> option float.

Lemma render_spec w acts_raw s s' o :
  render float_of_str w acts_raw s = (s', o) ->
  match o with
  | Rendered items pages =>
      exists acts,
        shown_activities float_of_str w acts_raw (active_cats s) = Some acts /\
        page_size w <> 0 /\
        pages = total_pages acts (page_size w) /\
        page s' = Z.max 1 (Z.min (page s) pages) /\
        items = slice acts ((page s' - 1) * page_size w) (page s' * page_size w) /\
        s' = set_page (page s') s
  | _ => s' = s
  end.
Proof.
  unfold render, shown_activities.
  destruct (kw_list (active_cats s)) as [kws|]; [|intros H; now injection H as <- <-].
  destruct (sort_activities _ _ _) as [acts|]; [|intros H; now injection H as <- <-].
  unfold paginate. destruct (Z.eqb_spec (page_size w) 0) as [E|E];
    [intros H; now injection H as <- <-|].
  intros H; injection H as <- <-. exists acts. repeat split; auto.
Qed.

(** A run of the script that renders a page. *)
Lemma script_rendered w s s' items pages :
  script float_of_str w s = (s', Rendered items pages) ->
  exists acts_raw acts,
    city_selected w = true /\
    api_result w = Some acts_raw /\
    weather_verdict (weather_rows w) <> None /\
    shown_activities float_of_str w acts_raw (active_cats s') = Some acts /\
    page_size w <> 0 /\
    pages = total_pages acts (page_size w) /\
    1 <= page s' <= pages /\
    items = page_items acts (page_size w) (page s') /\
    settled s'.
Proof.
  unfold script. destruct (city_selected w); [|discriminate]. cbn [negb].
  set (s0 := search_trigger w (category_widgets w (apply_pending s))).
  assert (H0 : cat_filter s0 = Some (active_cats s0) /\ cat_filter_new s0 = None).
  { unfold s0, search_trigger, category_widgets, apply_pending.
    repeat match goal with
           | |- context [if ?b then _ else _] => destruct b
           | |- context [match cat_filter_new s with _ => _ end] =>
               destruct (cat_filter_new s) eqn:?
           end; cbn; auto. }
  destruct H0 as [H1 H2]. clearbody s0.
  destruct (have_results s0) eqn:Hh; [|discriminate]. cbn [negb].
  destruct (api_result w) as [acts_raw|]; [|discriminate].
  destruct (weather_verdict (weather_rows w)) as [[rain_flag avg_temp]|]; [|discriminate].
  destruct (use_preset s0) eqn:Hu; [discriminate|].
  intros H. pose proof (render_spec w acts_raw s0 s' _ H) as
    (acts & Hs & Hps & Hpages & Hpage & Hitems & Hs').
  assert (Hpos : 1 <= pages) by (rewrite Hpages; apply total_pages_pos).
  exists acts_raw, acts.
  assert (Ecats : active_cats s' = active_cats s0) by (rewrite Hs'; reflexivity).
  split; [reflexivity|]. split; [reflexivity|]. split; [discriminate|].
  split; [now rewrite Ecats|]. split; [exact Hps|]. split; [exact Hpages|].
  split; [lia|]. split.
  - rewrite Hitems. symmetry. apply page_items_in_range; [exact Hps | lia].
  - rewrite Hs'. unfold settled. cbn. auto.
Qed.

Lemma script_settled w s acts_raw :
  settled s -> city_selected w = true ->
  preset_button w = false -> find_button w = false ->
  api_result w = Some acts_raw -> weather_verdict (weather_rows w) <> None ->
  script float_of_str w s = render float_of_str w acts_raw s.
Proof.
  intros (Hh & Hu & Hn & Hc) Hcity Hp Hf Ha Hv.
  unfold script, apply_pending, category_widgets, search_trigger.
  rewrite Hn, Hcity, Hp, Hf, Hc. cbn [negb get_default].
  rewrite (set_cats_same s Hc), Hu. cbn [andb]. rewrite Hh, Ha. cbn [negb].
  destruct (weather_verdict (weather_rows w)) as [[rain_flag avg_temp]|];
    [now rewrite Hu | contradiction].
Qed.

Lemma render_in_range w acts_raw s acts :
  shown_activities float_of_str w acts_raw (active_cats s) = Some acts ->
  page_size w <> 0 -> 1 <= page s <= total_pages acts (page_size w) ->
  render float_of_str w acts_raw s
  = (s, Rendered (page_items acts (page_size w) (page s))
                 (total_pages acts (page_size w))).
Proof.
  unfold shown_activities, render. intros Hs Hps Hp.
  destruct (kw_list (active_cats s)) as [kws|]; [|discriminate Hs].
  rewrite Hs. rewrite (page_items_in_range acts _ _ Hps Hp).
  unfold paginate. destruct (Z.eqb_spec (page_size w) 0); [contradiction|].
  rewrite (Z.min_l (page s)) by lia. rewrite Z.max_r by lia.
  now rewrite set_page_same.
Qed.

Lemma settled_set_page p s : settled s -> settled (set_page p s).
Proof. unfold settled. destruct s; simpl. auto. Qed.

(** X14: a rendered page is stable: running the script again with the
    same data and no button pressed renders the same page and leaves the
    session as it is. *)
Theorem rerun_renders_same w s s' items pages :
  script float_of_str w s = (s', Rendered items pages) ->
  script float_of_str (released w) s' = (s', Rendered items pages).
Proof.
  intros H.
  destruct (script_rendered w s s' items pages H)
    as (acts_raw & acts & Hc & Ha & Hv & Hs & Hps & -> & Hp & -> & Hset).
  rewrite (script_settled (released w) s' acts_raw Hset Hc eq_refl eq_refl Ha Hv).
  apply (render_in_range (released w)); auto.
Qed.

(** X15: the Prev and Next buttons of a rendered page.  While the data
    are the same, Next, when it is enabled, shows the following page of the
    same list and Prev, when it is enabled, the preceding one; the number
    of pages stays. *)
Theorem navigation_moves_one_page w s s' items pages :
  script float_of_str w s = (s', Rendered items pages) ->
  exists acts_raw acts,
    api_result w = Some acts_raw /\
    shown_activities float_of_str w acts_raw (active_cats s') = Some acts /\
    items = page_items acts (page_size w) (page s') /\
    (next_disabled s' pages = false ->
     script float_of_str (released w) (on_next s')
     = (on_next s', Rendered (page_items acts (page_size w) (page s' + 1)) pages)) /\
    (prev_disabled s' = false ->
     script float_of_str (released w) (on_prev s')
     = (on_prev s', Rendered (page_items acts (page_size w) (page s' - 1)) pages)).
Proof.
  intros H.
  destruct (script_rendered w s s' items pages H)
    as (acts_raw & acts & Hc & Ha & Hv & Hs & Hps & -> & Hp & -> & Hset).
  exists acts_raw, acts. split; [exact Ha|]. split; [exact Hs|].
  split; [reflexivity|]. split.
  - unfold next_disabled. intros Hn. apply Z.eqb_neq in Hn.
    rewrite (script_settled (released w) (on_next s') acts_raw
               (settled_set_page _ _ Hset) Hc eq_refl eq_refl Ha Hv).
    apply (render_in_range (released w) acts_raw (on_next s') acts); auto.
    cbn. lia.
  - unfold prev_disabled. intros Hn. apply Z.eqb_neq in Hn.
    rewrite (script_settled (released w) (on_prev s') acts_raw
               (settled_set_page _ _ Hset) Hc eq_refl eq_refl Ha Hv).
    apply (render_in_range (released w) acts_raw (on_prev s') acts); auto.
    cbn. lia.
Qed.

End Rendered.

(** The session on page 2 of the twelve castles. *)
Lemma rerun_renders_same_witness :
  script no_strings plain_run browsing
  = (browsing, Rendered (firstn 5 (skipn 5 castles)) 3) /\
  script no_strings (released plain_run) browsing
  = (browsing, Rendered (firstn 5 (skipn 5 castles)) 3).
Proof.
  assert (H : script no_strings plain_run browsing
              = (browsing, Rendered (firstn 5 (skipn 5 castles)) 3)) by reflexivity.
  split; [exact H|].
  exact (rerun_renders_same no_strings plain_run browsing browsing _ _ H).
Defined.

Lemma navigation_moves_one_page_witness :
  script no_strings plain_run browsing
  = (browsing, Rendered (firstn 5 (skipn 5 castles)) 3) /\
  exists acts_raw acts,
    api_result plain_run = Some acts_raw /\
    shown_activities no_strings plain_run acts_raw (active_cats browsing) = Some acts /\
    firstn 5 (skipn 5 castles) = page_items acts (page_size plain_run) (page browsing).
Proof.
  assert (H : script no_strings plain_run browsing
              = (browsing, Rendered (firstn 5 (skipn 5 castles)) 3)) by reflexivity.
  split; [exact H|].
  destruct (navigation_moves_one_page no_strings plain_run browsing browsing _ _ H)
    as (acts_raw & acts & H1 & H2 & H3 & _).
  exists acts_raw, acts. auto.
Defined.

(** ** Sessions *)

Section Sessions.

Variable float_of_str : string -> option float.

Lemma cats_ok_apply_pending s : cats_ok s -> cats_ok (apply_pending s).
Proof.
  unfold cats_ok, apply_pending. intros (H1 & H2 & H3).
  destruct (cat_filter_new s) as [c|] eqn:E; cbn; [|rewrite E; auto].
  pose proof (H3 c eq_refl). repeat split; auto;
    try (intros cats [= <-]; assumption); intros cats [=].
Qed.

Lemma cats_ok_category_widgets w s : cats_ok s -> cats_ok (category_widgets w s).
Proof.
  unfold cats_ok, category_widgets. intros (H1 & H2 & H3).
  assert (Hsel : offered (get_default (cat_filter s) (active_cats s)))
    by (destruct (cat_filter s) as [c|]; cbn; auto).
  repeat match goal with
         | |- context [if ?b then _ else _] => destruct b
         end; cbn; (repeat split; auto; intros cats [= <-]; assumption).
Qed.

Lemma cats_ok_search_trigger w s : cats_ok s -> cats_ok (search_trigger w s).
Proof. unfold search_trigger. destruct (find_button w); auto. Qed.

Lemma cats_ok_render w acts_raw s :
  cats_ok s -> cats_ok (fst (render float_of_str w acts_raw s)).
Proof.
  intros H. unfold render.
  repeat match goal with
         | |- context [match ?x with _ => _ end] => destruct x
         end; exact H.
Qed.

Lemma cats_ok_script w s : cats_ok s -> cats_ok (fst (script float_of_str w s)).
Proof.
  intros H. apply cats_ok_apply_pending in H.
  unfold script. destruct (negb (city_selected w)); [exact H|].
  apply (cats_ok_category_widgets w), (cats_ok_search_trigger w) in H.
  revert H. generalize (search_trigger w (category_widgets w (apply_pending s))).
  intros s1 H.
  destruct (negb (have_results s1)); [exact H|].
  destruct (api_result w) as [acts_raw|]; [|exact H].
  destruct (weather_verdict (weather_rows w)) as [[rain_flag avg_temp]|]; [|exact H].
  destruct (use_preset s1); [|now apply cats_ok_render].
  destruct H as (H1 & H2 & H3). unfold cats_ok; cbn. repeat split; auto.
  intros cats [= <-]. apply preset_categories_offered.
Qed.

Lemma script_keeps_well_formed w s :
  1 <= page s -> cats_ok s -> well_formed (script float_of_str w s).
Proof.
  intros Hp Hc. pose proof (cats_ok_script w s Hc) as Hc'.
  destruct (script float_of_str w s) as [s' o] eqn:E.
  pose proof (script_page float_of_str w s s' o E) as P. cbn in Hc'.
  destruct Hc' as (H1 & H2 & H3). unfold well_formed.
  destruct (city_selected w && find_button w); destruct o; cbn in P;
    repeat split; auto; lia.
Qed.

Lemma interaction_keeps_well_formed w s :
  1 <= page s -> cats_ok s -> well_formed (interaction float_of_str w s).
Proof.
  intros Hp Hc. unfold interaction.
  pose proof (script_keeps_well_formed w s Hp Hc) as H.
  destruct (script float_of_str w s) as [s1 o].
  destruct o; try exact H.
  destruct H as (H1 & _ & H2 & H3 & H4).
  apply script_keeps_well_formed; [exact H1 | repeat split; assumption].
Qed.

(** X16: whatever the user does, starting from a new session, the page
    number stays at least 1 and, on a rendered page, at most the number of
    pages; and every stored selection consists of offered categories, so
    the keyword lookup cannot fail. *)
Theorem reachable_well_formed (c : session * outcome) :
  reachable float_of_str c ->
  well_formed c /\ kw_list (active_cats (fst c)) <> None.
Proof.
  intros H.
  assert (W : well_formed c).
  { induction H as [|c c' _ IH Hstep].
    - unfold well_formed, new_session; cbn.
      repeat split; try lia; try constructor; discriminate.
    - destruct Hstep as [w s o|cats w s o Hcats|w s items pages Hd|w s items pages Hd];
        destruct IH as (H1 & H2 & H3 & H4 & H5);
        apply interaction_keeps_well_formed; cbn; try assumption.
      + repeat split; auto.
      + repeat split; auto. intros c [= <-]. assumption.
      + unfold prev_disabled in Hd. apply Z.eqb_neq in Hd. lia.
      + repeat split; auto.
      + lia.
      + repeat split; auto. }
  split; [exact W|].
  destruct c as [s o]. destruct W as (_ & _ & Hc & _). cbn.
  destruct (kw_list_offered (active_cats s) Hc) as (kws & -> & _).
  discriminate.
Qed.

Lemma script_applies_pending w s c s2 o :
  cat_filter_new s = Some c -> use_preset s = false ->
  city_selected w = true -> preset_button w = false ->
  script float_of_str w s = (s2, o) ->
  active_cats s2 = c /\ cat_filter s2 = Some c /\
  use_preset s2 = false /\ cat_filter_new s2 = None.
Proof.
  intros Hn Hu Hc Hp. unfold script. rewrite Hc. cbn [negb].
  set (s0 := search_trigger w (category_widgets w (apply_pending s))).
  assert (Q : active_cats s0 = c /\ cat_filter s0 = Some c /\
              use_preset s0 = false /\ cat_filter_new s0 = None).
  { unfold s0, search_trigger, category_widgets, apply_pending.
    rewrite Hn, Hp. cbn. rewrite Hu. cbn.
    destruct (find_button w); cbn; auto. }
  clearbody s0. destruct Q as (Q1 & Q2 & Q3 & Q4).
  destruct (negb (have_results s0)); [intros H; injection H as <- <-; auto|].
  destruct (api_result w) as [acts_raw|]; [|intros H; injection H as <- <-; auto].
  destruct (weather_verdict (weather_rows w)) as [[rain_flag avg_temp]|];
    [|intros H; injection H as <- <-; auto].
  rewrite Q3. intros H.
  pose proof (render_spec float_of_str w acts_raw s0 s2 o H) as R.
  destruct o; try (subst s2; auto; fail).
  destruct R as (acts & _ & _ & _ & _ & _ & ->). cbn. auto.
Qed.

(** X17: applying the preset.  When a run applies the preset, the verdict
    of the current weather rows decides it; after the rerun the selection,
    both the tracked list and the multiselect, is that preset, and nothing
    is left pending. *)
Theorem preset_is_applied w s s1 :
  script float_of_str w s = (s1, Rerun) ->
  exists rain avg,
    weather_verdict (weather_rows w) = Some (rain, avg) /\
    let s2 := fst (interaction float_of_str w s) in
    active_cats s2 = preset_categories rain avg /\
    cat_filter s2 = Some (preset_categories rain avg) /\
    use_preset s2 = false /\ cat_filter_new s2 = None.
Proof.
  intros H. rewrite (interaction_rerun float_of_str w s s1 H).
  revert H. unfold script at 1.
  destruct (city_selected w) eqn:Hc; [|discriminate]. cbn [negb].
  destruct (negb (have_results _)); [discriminate|].
  destruct (api_result w) as [acts_raw|]; [|discriminate].
  destruct (weather_verdict (weather_rows w)) as [[rain avg]|]; [|discriminate].
  destruct (use_preset _) eqn:Hu.
  - intros H; injection H as <-. exists rain, avg. split; [reflexivity|].
    cbn zeta.
    destruct (script float_of_str (released w) _) as [s2 o] eqn:E.
    cbn [fst].
    eapply script_applies_pending; [| | | |exact E];
      [reflexivity | reflexivity | exact Hc | reflexivity].
  - unfold render.
    repeat match goal with
           | |- context [match ?x with _ => _ end] => destruct x
           end; discriminate.
Qed.


End Sessions.

(** A new session after "Find Activities". *)
Lemma reachable_well_formed_witness :
  reachable no_strings (interaction no_strings find_click new_session) /\
  well_formed (interaction no_strings find_click new_session).
Proof.
  assert (H : reachable no_strings (interaction no_strings find_click new_session))
    by (eapply reach_step; [apply reach_new | apply step_run]).
  split; [exact H|].
  exact (proj1 (reachable_well_formed no_strings _ H)).
Defined.

(** The preset button pressed on page 2 of the castles, with no weather
    data: the warm preset is selected. *)
Lemma preset_is_applied_witness :
  snd (script no_strings preset_click browsing) = Rerun /\
  active_cats (fst (interaction no_strings preset_click browsing))
  = preset_categories false PrimFloat.nan.
Proof.
  split; [reflexivity|].
  destruct (preset_is_applied no_strings preset_click browsing _ eq_refl)
    as (rain & avg & Hv & Ha & _).
  injection Hv as <- <-. exact Ha.
Defined.

